(** * cleanmymac: the target registry and the runner

    A shallow embedding of [cleanmymac/registry.py] and [cleanmymac/cli.py]
    (Python 2).  The process-wide registry [__TARGETS__], the heap of
    mutable [dict] objects and the free disk space form an explicit state;
    log lines and calls on targets are emitted as a list of events, so a
    run of [cli] is a function from the state before to an outcome (normal
    return or a propagating exception), the state after and what happened
    in between. *)

From stdpp Require Import base tactics option list strings gmap fin_maps.
From Stdlib Require Import ZArith Ascii.

Local Open Scope string_scope.
Local Open Scope Z_scope.

(** ** Python values *)

(** An exception instance ([Exception] and its subclasses: what
    [except Exception, ex] catches). *)
Record exn := Exn { exn_class : string; exn_msg : string }.

Definition TypeError (msg : string) : exn := Exn "TypeError" msg.
Definition KeyError (key : string) : exn := Exn "KeyError" key.

Inductive outcome (A : Type) : Type :=
| Ret (a : A)
| Raise (e : exn).
Arguments Ret {A} a.
Arguments Raise {A} e.

(** Parsed YAML data: descriptor arguments and configuration entries. *)
#[local] Set Warnings "-register-all".
Inductive value : Type :=
| VNull
| VBool (b : bool)
| VInt (z : Z)
| VStr (s : string)
| VList (l : list value)
| VMap (m : list (string * value)).

(** A [dict] object with string keys; dicts that the code mutates live
    in the heap and are passed around by reference. *)
Abbreviation pydict := (gmap string value).
Abbreviation loc := nat.
Abbreviation pyheap := (list pydict).

(** A class, as far as [issubclass] sees it: its name and the names of
    its ancestors. *)
Record pyclass := PyClass { cls_name : string; cls_bases : list string }.

Definition Target : string := "Target".

Definition issubclass (c : pyclass) (base : string) : bool :=
  bool_decide (base ∈ cls_name c :: cls_bases c).

(** Modelled from the spec: cleanmymac.target is not in the sources at
    hand; its two YAML variants are kinds of [Target]. *)
Definition YamlShellCommandTarget : pyclass :=
  PyClass "YamlShellCommandTarget" [Target].
Definition YamlDirTarget : pyclass := PyClass "YamlDirTarget" [Target].

(** Modelled from the spec: the constructor of a target class, which is
    not in the sources at hand.  A [Target] has the attributes [config],
    [update] and [verbose]; calling a class as
    [cls(config, update=update, verbose=verbose)] gives an instance that
    keeps the three arguments, the config by reference. *)
Record instance := Instance {
  inst_class : pyclass;
  inst_config : option loc;
  inst_update : bool;
  inst_verbose : bool
}.

(** What an initializer hands back. *)
Inductive pyobj : Type :=
| PyNone
| PyInst (t : instance).

(** [isinstance(target, Target)], giving the instance when it holds. *)
Definition as_Target (o : pyobj) : option instance :=
  match o with
  | PyInst t => if issubclass (inst_class t) Target then Some t else None
  | PyNone => None
  end.

(** The second argument of [register_target]: a class, or any other
    object (shown by its repr). *)
Inductive pyarg : Type :=
| ArgClass (c : pyclass)
| ArgObject (repr : string).

(** The values of [__TARGETS__]: a class registered by [register_target],
    or [partial(load_target, yaml_file)]. *)
Inductive initializer : Type :=
| InitClass (c : pyclass)
| InitYaml (yaml_file : string).

(** A validated descriptor: [description['type']], [description['args']]. *)
Record description := Description { d_type : string; d_args : value }.

(** ** Events *)

Inductive log_kind := LogDebug | LogWarn | LogError | EchoInfo | EchoWarn.

(** The messages, format and arguments kept apart. *)
Inductive message : Type :=
| MsgRegistering (name : string)
| MsgUnknownType (_type : string) (valid : list string)
| MsgExpectedSubclass (file : string) (c : pyclass)
| MsgNotOfTypeTarget (name : string) (target : pyarg)
| MsgNoTargetFound (name : string)
| MsgConfigNotFound
| MsgFound (n : nat)
| MsgListItem (name : string)
| MsgCleaning (NAME : string)
| MsgExpectedInstance (target : pyobj)
| MsgDescription (text : string)
| MsgCouldNotCleanup (name : string) (ex : exn)
| MsgCleanupComplete
| MsgFreed (delta : Z).

Inductive event : Type :=
| EvLog (k : log_kind) (m : message)
| EvDiskUsage (free : Z)
| EvInit (name : string) (cfg : option loc) (update verbose : bool)
| EvDescribe (name : string) (r : outcome string)
| EvInvoke (name : string) (r : option exn)
| EvSleep.

(** ** State and the monad of the embedding *)

Record state := State {
  TARGETS : gmap string initializer;   (* registry.__TARGETS__ *)
  heap : pyheap;                       (* the dict objects *)
  disk_free : Z                        (* get_disk_usage('/').free *)
}.

Record res (A : Type) := Res {
  out : outcome A;
  fin : state;
  evs : list event
}.
Arguments Res {A} out fin evs.
Arguments out {A} r.
Arguments fin {A} r.
Arguments evs {A} r.

Definition M (A : Type) : Type := state → res A.

Definition ret {A} (a : A) : M A := λ s, Res (Ret a) s [].

Definition bind {A B} (m : M A) (f : A → M B) : M B := λ s,
  let r := m s in
  match out r with
  | Ret a => let r' := f a (fin r) in Res (out r') (fin r') (evs r ++ evs r')
  | Raise e => Res (Raise e) (fin r) (evs r)
  end.

Notation "'do' x <- c ; k" := (bind c (λ x, k))
  (at level 10, x name, c at level 100, k at level 200).
Notation "c ;; k" := (bind c (λ _, k))
  (at level 100, k at level 200, right associativity).

Definition raise {A} (e : exn) : M A := λ s, Res (Raise e) s [].
Definition emit (ev : event) : M unit := λ s, Res (Ret tt) s [ev].
Definition lift {A} (o : outcome A) : M A := λ s, Res o s [].
Definition get_state : M state := λ s, Res (Ret s) s [].
Definition put_state (s' : state) : M unit := λ _, Res (Ret tt) s' [].

Fixpoint for_each {A} (l : list A) (body : A → M unit) : M unit :=
  match l with
  | [] => ret tt
  | x :: l' => body x ;; for_each l' body
  end.

(** Dict objects. *)
Definition alloc (d : pydict) : M loc := λ s,
  Res (Ret (List.length (heap s)))
      (State (TARGETS s) (heap s ++ [d]) (disk_free s)) [].

Definition setitem (r : loc) (k : string) (v : value) : M unit := λ s,
  Res (Ret tt)
      (State (TARGETS s) (alter (insert k v) r (heap s)) (disk_free s)) [].

Definition deref (h : pyheap) (r : loc) : pydict := default ∅ (h !! r).

(** [not config], for a config that is [None] or a dict. *)
Definition falsy (h : pyheap) (config : option loc) : bool :=
  match config with
  | None => true
  | Some r => bool_decide (deref h r = ∅)
  end.

Definition set_target (name : string) (i : initializer) : M unit := λ s,
  Res (Ret tt) (State (<[name := i]> (TARGETS s)) (heap s) (disk_free s)) [].

Definition debug (m : message) : M unit := emit (EvLog LogDebug m).
Definition warn (m : message) : M unit := emit (EvLog LogWarn m).
Definition error (m : message) : M unit := emit (EvLog LogError m).
Definition echo_info (m : message) : M unit := emit (EvLog EchoInfo m).
Definition echo_warn (m : message) : M unit := emit (EvLog EchoWarn m).

(** ** Strings *)

Definition ascii_upper (c : ascii) : ascii :=
  let n := nat_of_ascii c in
  if ((97 <=? n)%nat && (n <=? 122)%nat)%bool then ascii_of_nat (n - 32) else c.

Fixpoint upper (s : string) : string :=
  match s with
  | EmptyString => EmptyString
  | String c r => String (ascii_upper c) (upper r)
  end.

Fixpoint basename_from (acc s : string) : string :=
  match s with
  | EmptyString => acc
  | String c r =>
      if Ascii.eqb c "/"%char then basename_from EmptyString r
      else basename_from (acc ++ String c EmptyString) r
  end.
Definition basename (s : string) : string := basename_from EmptyString s.

(** ** What the two modules import *)

(** The collaborators that are not part of the two modules: constants,
    the directory scan, the YAML parser and schema, the target classes'
    methods and the file system. *)
Record Env := {
  (* cleanmymac.constants *)
  TYPE_TARGET_CMD : string;
  TYPE_TARGET_DIR : string;
  (* cleanmymac.util.yaml_files(path): the (name, yaml_file) pairs *)
  yaml_files : string → list (string * string);
  (* open(yaml_file, 'r+'), yaml.load and schema.validate_yaml_target *)
  read_descriptor : string → outcome description;
  (* Target.describe() and Target.__call__() of cleanmymac.target;
     the call returns the free disk space it leaves behind and the
     exception it raised, if any *)
  target_describe : instance → pyheap → outcome string;
  target_invoke : instance → pyheap → Z → Z * option exn;
  (* os.path.join(os.path.expanduser('~'), '.cleanmymac.yaml') *)
  default_config_path : string;
  abspath : string → string;
  (* os.path.exists(path), and open(path, 'r+') with yaml.load: the
     top-level keys with their sub-dicts *)
  read_config : string → option (outcome (list (string * pydict)));
  (* cleanmymac.schema.validate_yaml_config *)
  validate_yaml_config :
    list (string * pydict) → outcome (list (string * pydict))
}.

Section Program.

Variable E : Env.

(** ** registry.py *)

(** Modelled from the spec: [VALID_TARGET_TYPES] of cleanmymac.constants is
    not in the sources at hand; the descriptor format names the closed set
    of kinds as [TYPE_TARGET_CMD] and [TYPE_TARGET_DIR]. *)
Definition VALID_TARGET_TYPES : list string :=
  [TYPE_TARGET_CMD E; TYPE_TARGET_DIR E].

Definition __YAML_TYPES__ : gmap string pyclass :=
  <[TYPE_TARGET_DIR E := YamlDirTarget]>
    (<[TYPE_TARGET_CMD E := YamlShellCommandTarget]> ∅).

Definition construct (c : pyclass) (config : option loc)
    (update verbose : bool) : M pyobj :=
  ret (PyInst (Instance c config update verbose)).

Definition load_target (yaml_file : string) (config : option loc)
    (update verbose : bool) : M pyobj :=
  do description <- lift (read_descriptor E yaml_file);
  let _type := d_type description in
  if negb (bool_decide (_type ∈ VALID_TARGET_TYPES)) then
    error (MsgUnknownType _type VALID_TARGET_TYPES) ;;
    ret PyNone
  else
    match __YAML_TYPES__ !! _type with
    | None => raise (KeyError _type)
    | Some target_class =>
        if negb (issubclass target_class Target) then
          error (MsgExpectedSubclass (basename yaml_file) target_class) ;;
          ret PyNone
        else
          do s <- get_state;
          do config <- (if falsy (heap s) config then
                          do r <- alloc ∅; ret (Some r)
                        else ret config);
          match config with
          | Some r => setitem r "args" (d_args description)
          | None => ret tt
          end ;;
          construct target_class config update verbose
    end.

Definition register_target (name : string) (target : pyarg) : M unit :=
  match target with
  | ArgObject _ => raise (TypeError "issubclass() arg 1 must be a class")
  | ArgClass c =>
      if issubclass c Target then
        debug (MsgRegistering name) ;;
        set_target name (InitClass c)
      else
        error (MsgNotOfTypeTarget name target)
  end.

Definition register_yaml_targets (path : string) : M unit :=
  for_each (yaml_files E path) (λ '(name, yaml_file),
    debug (MsgRegistering name) ;;
    set_target name (InitYaml yaml_file)).

Definition get_target (name : string) : M (option initializer) :=
  do s <- get_state;
  match TARGETS s !! name with
  | Some t => ret (Some t)
  | None => error (MsgNoTargetFound name) ;; ret None
  end.

(** [dict(iter_targets())]: the pairs of the registry as they are now,
    copied into a new dict.  A Python 2 dict yields its pairs in an order
    of its own, which is not the order of insertion; [map_to_list] plays
    that part. *)
Definition iter_targets : M (list (string * initializer)) :=
  do s <- get_state; ret (map_to_list (TARGETS s)).

Definition dict_of (l : list (string * initializer))
  : gmap string initializer := list_to_map l.

(** ** cli.py *)

Fixpoint alloc_config (cfg : list (string * pydict)) : M (gmap string loc) :=
  match cfg with
  | [] => ret ∅
  | (k, d) :: cfg' =>
      do r <- alloc d;
      do m <- alloc_config cfg';
      ret (<[k := r]> m)
  end.

Definition get_options (path : option string) : M (gmap string loc) :=
  let path := match path with
              | Some p => if bool_decide (p = "") then default_config_path E else p
              | None => default_config_path E
              end in
  let path := abspath E path in
  do cfg <- match read_config E path with
            | None => warn MsgConfigNotFound ;; ret []
            | Some file => lift file
            end;
  do cfg <- lift (validate_yaml_config E cfg);
  alloc_config cfg.

(** The schema keeps [targets_path] a list of path strings. *)
Definition path_list (v : value) : list string :=
  match v with
  | VList l => omap (λ x, match x with VStr p => Some p | _ => None end) l
  | _ => []
  end.

Definition _config_targets_path (config : gmap string loc)
  : M (list string) :=
  do s <- get_state;
  match config !! "cleanmymac" with
  | Some r =>
      match deref (heap s) r !! "targets_path" with
      | Some v => ret (path_list v)
      | None => ret []
      end
  | None => ret []
  end.

(** [os.path.isdir] applied to the tuple that click builds for a
    [multiple=True] option: [os.stat] rejects a tuple with a TypeError,
    which [isdir] does not catch. *)
Definition os_path_isdir_tuple (paths : list string) : M bool :=
  raise (TypeError "coercing to Unicode: need string or buffer, tuple found").

Definition get_disk_usage : M Z :=
  do s <- get_state;
  emit (EvDiskUsage (disk_free s)) ;;
  ret (disk_free s).

Definition set_disk_free (z : Z) : M unit := λ s,
  Res (Ret tt) (State (TARGETS s) (heap s) z) [].

Definition call_initializer (i : initializer) (config : option loc)
    (update verbose : bool) : M pyobj :=
  match i with
  | InitClass c => construct c config update verbose
  | InitYaml yaml_file => load_target yaml_file config update verbose
  end.

Definition describe (name : string) (t : instance) : M string :=
  do s <- get_state;
  let r := target_describe E t (heap s) in
  emit (EvDescribe name r) ;;
  lift r.

(** [target()] inside the try block: the exception, if any, is handed to
    the handler. *)
Definition invoke (name : string) (t : instance) : M (option exn) :=
  do s <- get_state;
  let r := target_invoke E t (heap s) (disk_free s) in
  set_disk_free (fst r) ;;
  emit (EvInvoke name (snd r)) ;;
  ret (snd r).

(** How one turn of the target loop ends. *)
Inductive flow := Next | Break.

Section Run.

(** The options of one run and what [cli] computed before the loop. *)
Variables (update dry_run verbose stop_on_error : bool).
Variable target_names : gset string.
Variable config : gmap string loc.

(** [echo_info if verbose else lambda msg: msg] *)
Definition log_message (m : message) : M unit :=
  if verbose then echo_info m else ret tt.

(** The body of [for name, target_initializer in targets_to_process]. *)
Definition process_target (name : string) (target_initializer : initializer)
  : M flow :=
  if negb (bool_decide (name ∈ target_names)) then ret Next
  else
    log_message (MsgCleaning (upper name)) ;;
    let target_cfg := config !! name in
    emit (EvInit name target_cfg update verbose) ;;
    do target <- call_initializer target_initializer target_cfg update verbose;
    match as_Target target with
    | None => error (MsgExpectedInstance target) ;; ret Next
    | Some t =>
        do f <- (if dry_run then
                   do text <- describe name t;
                   echo_warn (MsgDescription text) ;;
                   ret Next
                 else
                   do r <- invoke name t;
                   match r with
                   | None => ret Next
                   | Some ex =>
                       error (MsgCouldNotCleanup name ex) ;;
                       if stop_on_error then ret Break else ret Next
                   end);
        match f with
        | Break => ret Break
        | Next => (if negb verbose then emit EvSleep else ret tt) ;; ret Next
        end
    end.

Fixpoint target_loop (items : list (string * initializer)) : M flow :=
  match items with
  | [] => ret Next
  | (name, target_initializer) :: items' =>
      do f <- process_target name target_initializer;
      match f with
      | Next => target_loop items'
      | Break => ret Break
      end
  end.

End Run.

Definition cli (update dry_run quiet list_targets stop_on_error : bool)
    (config : option string) (targets_path targets : list string) : M unit :=
  do all_targets <- (do l <- iter_targets; ret (dict_of l));
  let verbose := negb quiet in
  let target_names : gset string :=
    match targets with
    | [] => dom all_targets
    | _ => list_to_set targets
    end in
  log_message verbose (MsgFound (size all_targets)) ;;
  do config <- get_options config;
  (* register extra targets if any *)
  do paths <- _config_targets_path config;
  for_each paths register_yaml_targets ;;
  (match targets_path with
   | [] => ret tt
   | _ =>
       do isdir <- os_path_isdir_tuple targets_path;
       (* register_yaml_targets(targets_path) is never reached *)
       ret tt
   end) ;;
  if list_targets then
    for_each (map_to_list all_targets) (λ '(name, _),
      echo_warn (MsgListItem name))
  else
    do free_space_before <- get_disk_usage;
    target_loop update dry_run verbose stop_on_error target_names config
      (map_to_list all_targets) ;;
    do free_space_after <- get_disk_usage;
    if negb dry_run then
      log_message verbose MsgCleanupComplete ;;
      log_message verbose (MsgFreed (free_space_after - free_space_before))
    else ret tt.

End Program.

(** ** Reading the events of a run *)

(** The target a call event is about. *)
Definition touched (ev : event) : option string :=
  match ev with
  | EvInit n _ _ _ | EvDescribe n _ | EvInvoke n _ => Some n
  | _ => None
  end.

Definition is_log (ev : event) : bool :=
  match ev with EvLog _ _ => true | _ => false end.

Definition is_disk (ev : event) : bool :=
  match ev with EvDiskUsage _ => true | _ => false end.

Definition is_invoke (ev : event) : bool :=
  match ev with EvInvoke _ _ => true | _ => false end.

Definition is_describe (ev : event) : bool :=
  match ev with EvDescribe _ _ => true | _ => false end.

Definition failed_describe (ev : event) : bool :=
  match ev with EvDescribe _ (Raise _) => true | _ => false end.

Definition failed_invoke (ev : event) : bool :=
  match ev with EvInvoke _ (Some _) => true | _ => false end.

(** The names of the targets that were called, in order. *)
Definition invoked_names (l : list event) : list string :=
  omap (λ ev, match ev with EvInvoke n _ => Some n | _ => None end) l.

Definition initialized_names (l : list event) : list string :=
  omap (λ ev, match ev with EvInit n _ _ _ => Some n | _ => None end) l.

(** The target name a message reports on, for the messages that name one. *)
Definition message_target (m : message) : option string :=
  match m with
  | MsgNotOfTypeTarget n _ | MsgNoTargetFound n | MsgListItem n
  | MsgCouldNotCleanup n _ => Some n
  | _ => None
  end.

(** An error or warning line about target [name]. *)
Definition complains_about (name : string) (ev : event) : bool :=
  match ev with
  | EvLog (LogError | LogWarn | EchoWarn) m =>
      bool_decide (message_target m = Some name)
  | _ => false
  end.

(** Whether calling an initializer returns at all, and whether what it
    returns is a [Target]: both are decided by the descriptor alone. *)
Definition initializer_ok (E : Env) (i : initializer) : bool :=
  match i with
  | InitClass _ => true
  | InitYaml f =>
      match read_descriptor E f with Ret _ => true | Raise _ => false end
  end.

Definition yields_target (E : Env) (i : initializer) : bool :=
  match i with
  | InitClass c => issubclass c Target
  | InitYaml f =>
      match read_descriptor E f with
      | Ret d => bool_decide (d_type d ∈ VALID_TARGET_TYPES E)
      | Raise _ => false
      end
  end.

(** A descriptor file is valid when it parses, passes the schema and names
    a known type. *)
Definition valid_descriptor (E : Env) (yaml_file : string) : bool :=
  yields_target E (InitYaml yaml_file).


(** The dict a config argument stands for, [None] read as empty. *)
Definition config_dict (h : pyheap) (config : option loc) : pydict :=
  match config with
  | Some r => deref h r
  | None => ∅
  end.

(** ** Sample collaborators, for running the code on concrete inputs *)

Module Sample.

Definition env (descriptors : string → outcome description)
    (describe_of : instance → pyheap → outcome string)
    (invoke_of : instance → pyheap → Z → Z * option exn)
    (config : option (outcome (list (string * pydict)))) : Env := {|
  TYPE_TARGET_CMD := "cmd";
  TYPE_TARGET_DIR := "dir";
  yaml_files := λ path,
    if bool_decide (path = "/extra") then [("b", "/extra/b.yaml")]
    else if bool_decide (path = "/broken") then [("bad", "/broken/bad.yaml")]
    else [];
  read_descriptor := descriptors;
  target_describe := describe_of;
  target_invoke := invoke_of;
  default_config_path := "/home/user/.cleanmymac.yaml";
  abspath := λ p, p;
  read_config := λ _, config;
  validate_yaml_config := λ c, Ret c
|}.

(** Every file describes a shell command, except the one under /broken. *)
Definition descriptors (yaml_file : string) : outcome description :=
  if bool_decide (yaml_file = "/broken/bad.yaml")
  then Ret (Description "bogus" VNull)
  else Ret (Description "cmd" (VStr "brew cleanup")).

Definition describe_ok (t : instance) (h : pyheap) : outcome string :=
  Ret "brew cleanup".
Definition describe_fails (t : instance) (h : pyheap) : outcome string :=
  Raise (Exn "OSError" "no such command").

(** Frees 5 MB and returns. *)
Definition invoke_ok (t : instance) (h : pyheap) (free : Z) : Z * option exn :=
  (free + 5, None).
Definition invoke_fails (t : instance) (h : pyheap) (free : Z)
  : Z * option exn :=
  (free, Some (Exn "OSError" "command failed")).

Definition plain : Env := env descriptors describe_ok invoke_ok None.
Definition failing : Env := env descriptors describe_fails invoke_fails None.

(** A configuration file that lists /extra as a targets path. *)
Definition with_extra : Env :=
  env descriptors describe_ok invoke_ok
    (Some (Ret [("cleanmymac",
                 {["targets_path" := VList [VStr "/extra"]]} : pydict)])).

Definition empty_state : state := State ∅ [] 100.
Definition one_target : state :=
  State {["a" := InitYaml "/builtins/a.yaml"]} [] 100.
Definition three_targets : state :=
  State (<["a" := InitYaml "/builtins/a.yaml"]>
           (<["b" := InitYaml "/builtins/b.yaml"]>
              {["c" := InitYaml "/builtins/c.yaml"]})) [] 100.

End Sample.

(** ** The claims as worded, where the code departs from them *)

(** C6 as worded: an argument that fails the test is reported and the
    call returns. *)
Definition rejects_quietly (name : string) (target : pyarg) (s : state)
  : Prop :=
  let r := register_target name target s in
  out r = Ret tt ∧ (∃ m, EvLog LogError m ∈ evs r) ∧
  TARGETS (fin r) = TARGETS s.

(** C2 as worded: an invalid descriptor file gets no entry and a warning. *)
Definition skips_invalid (E : Env) (path : string) (s : state) : Prop :=
  let r := register_yaml_targets E path s in
  ∀ name yaml_file,
    (name, yaml_file) ∈ yaml_files E path →
    valid_descriptor E yaml_file = false →
    TARGETS (fin r) !! name = TARGETS s !! name ∧
    ∃ m, EvLog LogWarn m ∈ evs r.



(** The registry after one more YAML file. *)
Definition bind_yaml (m : gmap string initializer) (p : string * string)
  : gmap string initializer := <[p.1 := InitYaml p.2]> m.

(** ** The shape of a run *)

(** The error lines [load_target] may leave while an initializer runs. *)
Definition init_noise (ev : event) : bool :=
  match ev with
  | EvLog LogError (MsgUnknownType _ _ | MsgExpectedSubclass _ _) => true
  | _ => false
  end.

(** What [cli] logs before it reaches the targets. *)
Definition startup_log (ev : event) : bool :=
  match ev with
  | EvLog EchoInfo (MsgFound _) | EvLog LogWarn MsgConfigNotFound
  | EvLog LogDebug (MsgRegistering _) => true
  | _ => false
  end.

Section Shape.

Variable E : Env.
Variables (update dry_run verbose stop_on_error : bool).
Variable target_names : gset string.
Variable config : gmap string loc.

Definition cleaning (name : string) : list event :=
  if verbose then [EvLog EchoInfo (MsgCleaning (upper name))] else [].

Definition pause : list event := if verbose then [] else [EvSleep].

(** The events up to the return of the initializer. *)
Definition opening (name : string) (pre : list event) : Prop :=
  ∃ noise, Forall (λ ev, init_noise ev = true) noise ∧
    pre = (cleaning name ++
           EvInit name (config !! name) update verbose :: noise)%list.

(** The ways one turn of the loop can go: how it ends and what it emits. *)
Inductive step_shape (name : string) (i : initializer)
  : outcome flow → list event → Prop :=
| step_skipped :
    name ∉ target_names → step_shape name i (Ret Next) []
| step_init_raised e pre :
    name ∈ target_names → opening name pre → initializer_ok E i = false →
    step_shape name i (Raise e) pre
| step_not_a_target o pre :
    name ∈ target_names → opening name pre →
    initializer_ok E i = true → yields_target E i = false →
    step_shape name i (Ret Next)
      (pre ++ [EvLog LogError (MsgExpectedInstance o)])
| step_describe_raised e pre :
    name ∈ target_names → opening name pre →
    initializer_ok E i = true → yields_target E i = true →
    dry_run = true →
    step_shape name i (Raise e) (pre ++ [EvDescribe name (Raise e)])
| step_described text pre :
    name ∈ target_names → opening name pre →
    initializer_ok E i = true → yields_target E i = true →
    dry_run = true →
    step_shape name i (Ret Next)
      (pre ++ [EvDescribe name (Ret text);
               EvLog EchoWarn (MsgDescription text)] ++ pause)
| step_invoked pre :
    name ∈ target_names → opening name pre →
    initializer_ok E i = true → yields_target E i = true →
    dry_run = false →
    step_shape name i (Ret Next) (pre ++ [EvInvoke name None] ++ pause)
| step_failed ex pre :
    name ∈ target_names → opening name pre →
    initializer_ok E i = true → yields_target E i = true →
    dry_run = false → stop_on_error = false →
    step_shape name i (Ret Next)
      (pre ++ [EvInvoke name (Some ex);
               EvLog LogError (MsgCouldNotCleanup name ex)] ++ pause)
| step_failed_stop ex pre :
    name ∈ target_names → opening name pre →
    initializer_ok E i = true → yields_target E i = true →
    dry_run = false → stop_on_error = true →
    step_shape name i (Ret Break)
      (pre ++ [EvInvoke name (Some ex);
               EvLog LogError (MsgCouldNotCleanup name ex)]).

(** A run of the loop is a sequence of turns, the last of which may end
    it early. *)
Inductive loop_shape
  : list (string * initializer) → outcome flow → list event → Prop :=
| loop_done : loop_shape [] (Ret Next) []
| loop_ended name i items o l :
    step_shape name i o l → o ≠ Ret Next →
    loop_shape ((name, i) :: items) o l
| loop_went_on name i items l o' l' :
    step_shape name i (Ret Next) l → loop_shape items o' l' →
    loop_shape ((name, i) :: items) o' (l ++ l').

End Shape.

(** What the target loop may emit while it goes through [items]: no disk
    measurement; calls and complaints only about selected names among the
    items; [describe] only in a dry run and target calls only otherwise. *)
Definition loop_event (dry_run : bool) (target_names : gset string)
    (items : list (string * initializer)) (ev : event) : Prop :=
  is_disk ev = false ∧
  (∀ n, touched ev = Some n → n ∈ target_names ∧ n ∈ items.*1) ∧
  (∀ n, complains_about n ev = true → n ∈ target_names ∧ n ∈ items.*1) ∧
  (if dry_run then is_invoke ev = false else is_describe ev = false).

(** Break a [Forall] goal up along the spine of its list. *)
Ltac split_Forall :=
  repeat match goal with
         | |- Forall _ (_ ++ _) => apply Forall_app_2
         | |- Forall _ (_ :: _) => apply Forall_cons_2
         | |- Forall _ [] => apply Forall_nil_2
         end.


(** What [cli] prints after the loop. *)
Definition report (dry_run quiet : bool) (before after : Z) : list event :=
  if dry_run then []
  else if quiet then []
  else [EvLog EchoInfo MsgCleanupComplete;
        EvLog EchoInfo (MsgFreed (after - before))].

(** What a run of [cli] may do to targets: calls and complaints concern
    names that are selected and were in the registry when [cli] started. *)
Definition cli_event (target_names : gset string)
    (registry : gmap string initializer) (ev : event) : Prop :=
  (∀ n, touched ev = Some n → n ∈ target_names ∧ n ∈ dom registry) ∧
  (∀ n, complains_about n ev = true → n ∈ dom registry).




(** ** registry.py: proofs *)

Section RegistryFacts.

Variable E : Env.

Lemma yaml_types_lookup (t : string) :
  t ∈ VALID_TARGET_TYPES E →
  ∃ c, __YAML_TYPES__ E !! t = Some c ∧ issubclass c Target = true.
Proof.
  unfold VALID_TARGET_TYPES, __YAML_TYPES__. intros Ht.
  destruct (decide (t = TYPE_TARGET_DIR E)) as [->|Hne].
  - exists YamlDirTarget. by rewrite lookup_insert_eq.
  - exists YamlShellCommandTarget.
    rewrite lookup_insert_ne by done.
    apply elem_of_cons in Ht as [->|Ht]; [by rewrite lookup_insert_eq|].
    apply elem_of_cons in Ht as [->|Ht]; [done|]. by apply elem_of_nil in Ht.
Qed.

Lemma falsy_false (h : pyheap) (config : option loc) :
  falsy h config = false →
  ∃ r d, config = Some r ∧ h !! r = Some d ∧ d ≠ ∅.
Proof.
  destruct config as [r|]; simpl; [|done].
  intros Hf%bool_decide_eq_false. unfold deref in Hf.
  destruct (h !! r) as [d|] eqn:Hr; simpl in Hf; [|done].
  by exists r, d.
Qed.

Lemma falsy_true (h : pyheap) (config : option loc) :
  falsy h config = true → config_dict h config = ∅.
Proof.
  destruct config as [r|]; simpl; [|done].
  by intros Hf%bool_decide_eq_true.
Qed.

(** [load_target] on a descriptor of unknown type. *)
Lemma load_target_unknown yaml_file d config update verbose s :
  read_descriptor E yaml_file = Ret d →
  d_type d ∉ VALID_TARGET_TYPES E →
  load_target E yaml_file config update verbose s =
    Res (Ret PyNone) s
      [EvLog LogError (MsgUnknownType (d_type d) (VALID_TARGET_TYPES E))].
Proof.
  intros Hd Hty. unfold load_target, bind, lift. simpl. rewrite Hd. simpl.
  by rewrite bool_decide_eq_false_2.
Qed.

(** [load_target] on a descriptor of known type and a config that is
    absent or empty: the target gets a dict of its own. *)
Lemma load_target_fresh yaml_file d config update verbose s :
  read_descriptor E yaml_file = Ret d →
  d_type d ∈ VALID_TARGET_TYPES E →
  falsy (heap s) config = true →
  ∃ c, __YAML_TYPES__ E !! d_type d = Some c ∧ issubclass c Target = true ∧
    load_target E yaml_file config update verbose s =
      Res (Ret (PyInst (Instance c (Some (length (heap s))) update verbose)))
          (State (TARGETS s) (heap s ++ [{["args" := d_args d]}]) (disk_free s))
          [].
Proof.
  intros Hd Hty Hf. destruct (yaml_types_lookup _ Hty) as (c & Hc & Hsub).
  exists c. split; [done|]. split; [done|].
  unfold load_target, bind, lift. simpl. rewrite Hd. simpl.
  rewrite bool_decide_eq_true_2 by done. simpl. rewrite Hc, Hsub. simpl.
  rewrite Hf. simpl. do 2 f_equal.
  by rewrite <- (Nat.add_0_r (length (heap s))), alter_app_r.
Qed.

(** [load_target] on a descriptor of known type and a non-empty config:
    the caller's dict is updated where it is. *)
Lemma load_target_in_place yaml_file d r d0 update verbose s :
  read_descriptor E yaml_file = Ret d →
  d_type d ∈ VALID_TARGET_TYPES E →
  heap s !! r = Some d0 → d0 ≠ ∅ →
  ∃ c, __YAML_TYPES__ E !! d_type d = Some c ∧ issubclass c Target = true ∧
    load_target E yaml_file (Some r) update verbose s =
      Res (Ret (PyInst (Instance c (Some r) update verbose)))
          (State (TARGETS s) (<[r := <["args" := d_args d]> d0]> (heap s))
                 (disk_free s))
          [].
Proof.
  intros Hd Hty Hr Hne. destruct (yaml_types_lookup _ Hty) as (c & Hc & Hsub).
  exists c. split; [done|]. split; [done|].
  unfold load_target, bind, lift. simpl. rewrite Hd. simpl.
  rewrite bool_decide_eq_true_2 by done. simpl. rewrite Hc, Hsub. simpl.
  unfold deref. rewrite Hr. simpl. rewrite bool_decide_eq_false_2 by done.
  simpl. do 2 f_equal.
  apply list_eq. intros i. destruct (decide (i = r)) as [->|Hi].
  - rewrite list_lookup_alter_eq, Hr. simpl.
    by rewrite list_lookup_insert_eq by (by eapply lookup_lt_Some).
  - by rewrite list_lookup_alter_ne, list_lookup_insert_ne.
Qed.

End RegistryFacts.

(** C5. For a descriptor file that parses and passes the schema,
    [load_target] returns [None], constructs nothing and changes no state
    when the type is not among the valid target types; otherwise it returns
    an instance of the class that [__YAML_TYPES__] holds for the type tag,
    built with the given [update] and [verbose] flags and with a config
    dict that is the passed config ([None] or an empty dict read as the
    empty mapping) with its 'args' key set to the descriptor's args. *)
Theorem load_target_dispatch (E : Env) (yaml_file : string) (d : description)
    (config : option loc) (update verbose : bool) (s : state) :
  read_descriptor E yaml_file = Ret d →
  let r := load_target E yaml_file config update verbose s in
  (d_type d ∉ VALID_TARGET_TYPES E → out r = Ret PyNone ∧ fin r = s) ∧
  (d_type d ∈ VALID_TARGET_TYPES E →
   ∃ c cfg,
     __YAML_TYPES__ E !! d_type d = Some c ∧
     issubclass c Target = true ∧
     out r = Ret (PyInst (Instance c (Some cfg) update verbose)) ∧
     heap (fin r) !! cfg =
       Some (<["args" := d_args d]> (config_dict (heap s) config))).
Proof.
  intros Hd r. subst r. split; intros Hty.
  - by rewrite (load_target_unknown E _ d) by done.
  - destruct (falsy (heap s) config) eqn:Hf.
    + destruct (load_target_fresh E yaml_file d config update verbose s)
        as (c & Hc & Hsub & ->); [done..|].
      exists c, (length (heap s)). simpl. repeat split; [done..|].
      rewrite (falsy_true _ _ Hf), insert_empty.
      by rewrite lookup_app_r, Nat.sub_diag by done.
    + destruct (falsy_false _ _ Hf) as (r0 & d0 & -> & Hr & Hne).
      destruct (load_target_in_place E yaml_file d r0 d0 update verbose s)
        as (c & Hc & Hsub & ->); [done..|].
      exists c, r0. simpl. repeat split; [done..|].
      unfold deref. rewrite Hr. simpl.
      by rewrite list_lookup_insert_eq by (by eapply lookup_lt_Some).
Qed.

Lemma load_target_dispatch_witness :
  read_descriptor Sample.plain "/builtins/a.yaml" =
    Ret (Description "cmd" (VStr "brew cleanup")) ∧
  let r := load_target Sample.plain "/builtins/a.yaml" None true false
             Sample.empty_state in
  ("cmd" ∉ VALID_TARGET_TYPES Sample.plain →
   out r = Ret PyNone ∧ fin r = Sample.empty_state) ∧
  ("cmd" ∈ VALID_TARGET_TYPES Sample.plain →
   ∃ c cfg,
     __YAML_TYPES__ Sample.plain !! "cmd" = Some c ∧
     issubclass c Target = true ∧
     out r = Ret (PyInst (Instance c (Some cfg) true false)) ∧
     heap (fin r) !! cfg =
       Some (<["args" := VStr "brew cleanup"]>
               (config_dict (heap Sample.empty_state) None))).
Proof.
  split; [reflexivity|].
  exact (load_target_dispatch Sample.plain "/builtins/a.yaml"
           (Description "cmd" (VStr "brew cleanup")) None true false
           Sample.empty_state eq_refl).
Defined.

(** C10. When [load_target] gets as far as building a target (the
    descriptor is valid) and the config passed is a non-empty dict, that
    very dict is updated where it lives: its 'args' key now holds the
    descriptor's args, whatever it held before, every other key and every
    other dict is as it was, no dict is created and the target keeps a
    reference to the caller's dict.  A new dict is created exactly when
    the config is [None] or empty, and then the caller's dict stays as it
    was. *)
Theorem load_target_config_in_place (E : Env) (yaml_file : string)
    (d : description) (config : option loc) (update verbose : bool)
    (s : state) :
  read_descriptor E yaml_file = Ret d →
  d_type d ∈ VALID_TARGET_TYPES E →
  let r := load_target E yaml_file config update verbose s in
  (∀ r0 d0, config = Some r0 → heap s !! r0 = Some d0 → d0 ≠ ∅ →
     (∃ d1, heap (fin r) !! r0 = Some d1 ∧
            d1 !! "args" = Some (d_args d) ∧
            ∀ k, k ≠ "args" → d1 !! k = d0 !! k) ∧
     (∀ r', r' ≠ r0 → heap (fin r) !! r' = heap s !! r') ∧
     length (heap (fin r)) = length (heap s) ∧
     ∃ c, out r = Ret (PyInst (Instance c (Some r0) update verbose))) ∧
  (falsy (heap s) config = true →
     heap (fin r) = (heap s ++ [{["args" := d_args d]}])%list ∧
     ∃ c, out r =
            Ret (PyInst (Instance c (Some (length (heap s))) update verbose))) ∧
  (length (heap (fin r)) ≠ length (heap s) → falsy (heap s) config = true).
Proof.
  intros Hd Hty r. subst r. split; [|split].
  - intros r0 d0 -> Hr Hne.
    destruct (load_target_in_place E yaml_file d r0 d0 update verbose s)
      as (c & Hc & Hsub & ->); [done..|]. simpl.
    assert (r0 < length (heap s))%nat by (by eapply lookup_lt_Some).
    repeat split.
    + exists (<["args" := d_args d]> d0).
      rewrite list_lookup_insert_eq by done. split; [done|].
      split; [by rewrite lookup_insert_eq|].
      intros k Hk. by rewrite lookup_insert_ne.
    + intros r' Hr'. by rewrite list_lookup_insert_ne.
    + by rewrite length_insert.
    + by exists c.
  - intros Hf.
    destruct (load_target_fresh E yaml_file d config update verbose s)
      as (c & Hc & Hsub & ->); [done..|]. simpl. split; [done|by exists c].
  - intros Hlen. destruct (falsy (heap s) config) eqn:Hf; [done|].
    destruct (falsy_false _ _ Hf) as (r0 & d0 & -> & Hr & Hne).
    destruct (load_target_in_place E yaml_file d r0 d0 update verbose s)
      as (c & Hc & Hsub & Heq); [done..|].
    rewrite Heq in Hlen. simpl in Hlen. by rewrite length_insert in Hlen.
Qed.

Lemma load_target_config_in_place_witness :
  let E := Sample.plain in
  let s := State ∅ [{["keep" := VInt 1; "args" := VStr "old"]}] 100 in
  let d := Description "cmd" (VStr "brew cleanup") in
  let r := load_target E "/builtins/a.yaml" (Some 0%nat) false true s in
  read_descriptor E "/builtins/a.yaml" = Ret d ∧
  d_type d ∈ VALID_TARGET_TYPES E ∧
  (∀ r0 d0, Some 0%nat = Some r0 → heap s !! r0 = Some d0 → d0 ≠ ∅ →
     (∃ d1, heap (fin r) !! r0 = Some d1 ∧
            d1 !! "args" = Some (d_args d) ∧
            ∀ k, k ≠ "args" → d1 !! k = d0 !! k) ∧
     (∀ r', r' ≠ r0 → heap (fin r) !! r' = heap s !! r') ∧
     length (heap (fin r)) = length (heap s) ∧
     ∃ c, out r = Ret (PyInst (Instance c (Some r0) false true))) ∧
  (falsy (heap s) (Some 0%nat) = true →
     heap (fin r) = (heap s ++ [{["args" := d_args d]}])%list ∧
     ∃ c, out r =
            Ret (PyInst (Instance c (Some (length (heap s))) false true))) ∧
  (length (heap (fin r)) ≠ length (heap s) →
   falsy (heap s) (Some 0%nat) = true).
Proof.
  intros E s d r. split; [reflexivity|]. split; [by left|].
  exact (load_target_config_in_place E "/builtins/a.yaml" d (Some 0%nat)
           false true s eq_refl ltac:(by left)).
Defined.

(** The sample above, run: the caller's dict at location 0 has its old
    'args' replaced and its other key kept. *)
Example load_target_overwrites_args :
  let s := State ∅ [{["keep" := VInt 1; "args" := VStr "old"]}] 100 in
  let r := load_target Sample.plain "/builtins/a.yaml" (Some 0%nat) false true s in
  heap (fin r) = [{["keep" := VInt 1; "args" := VStr "brew cleanup"]}] ∧
  out r = Ret (PyInst (Instance YamlShellCommandTarget (Some 0%nat) false true)).
Proof. by vm_compute. Qed.



(** A class that is not a [Target] is rejected the way C6 says. *)
Lemma register_target_rejects_class (name : string) (c : pyclass) (s : state) :
  issubclass c Target = false → rejects_quietly name (ArgClass c) s.
Proof.
  intros Hc. unfold rejects_quietly, register_target. rewrite Hc.
  simpl. split; [done|]. split; [|done]. eexists. by left.
Qed.

Section RegisterYaml.

Variable E : Env.

Lemma register_all_run (path : string) (s : state) :
  register_yaml_targets E path s =
  Res (Ret tt)
      (State (foldl bind_yaml (TARGETS s) (yaml_files E path)) (heap s)
             (disk_free s))
      (map (λ p, EvLog LogDebug (MsgRegistering p.1)) (yaml_files E path)).
Proof.
  unfold register_yaml_targets. generalize (yaml_files E path) as l.
  intros l. revert s. induction l as [|[n f] l IH]; intros s.
  - by destruct s.
  - simpl. unfold bind at 1. simpl. rewrite IH. done.
Qed.

Lemma bind_yaml_lookup (l : list (string * string))
    (m : gmap string initializer) (n : string) :
  (n ∈ l.*1 → ∃ f, (n, f) ∈ l ∧ foldl bind_yaml m l !! n = Some (InitYaml f)) ∧
  (n ∉ l.*1 → foldl bind_yaml m l !! n = m !! n).
Proof.
  revert m. induction l as [|[n' f'] l IH]; intros m; simpl.
  - split; [by intros ?%elem_of_nil|done].
  - destruct (decide (n ∈ l.*1)) as [Hin|Hnin].
    + destruct (proj1 (IH (bind_yaml m (n', f'))) Hin) as (f & Hf & Hl).
      split; [|intros Hn; exfalso; apply Hn; by right].
      intros _. exists f. split; [by right|done].
    + rewrite (proj2 (IH (bind_yaml m (n', f'))) Hnin). unfold bind_yaml.
      simpl. split.
      * intros [->|?]%elem_of_cons; [|done].
        exists f'. split; [by left|by rewrite lookup_insert_eq].
      * intros Hn. rewrite lookup_insert_ne; [done|].
        intros ->. apply Hn. by left.
Qed.

End RegisterYaml.

(** C2, as the code has it.  [register_yaml_targets] never looks into the
    files: it returns normally, logs one debug line per pair that
    [yaml_files(path)] yields and nothing else, and binds every yielded
    name to the deferred load of a file yielded under that name (the last
    one, should a name come twice); names that were not yielded keep their
    binding, and the dicts and the disk are untouched.  Whether a
    descriptor is valid shows only when the initializer is called. *)
Theorem register_yaml_targets_registers_all (E : Env) (path : string)
    (s : state) :
  let r := register_yaml_targets E path s in
  out r = Ret tt ∧
  evs r = map (λ p, EvLog LogDebug (MsgRegistering p.1)) (yaml_files E path) ∧
  heap (fin r) = heap s ∧ disk_free (fin r) = disk_free s ∧
  ∀ name,
    (name ∈ (yaml_files E path).*1 →
     ∃ yaml_file, (name, yaml_file) ∈ yaml_files E path ∧
       TARGETS (fin r) !! name = Some (InitYaml yaml_file)) ∧
    (name ∉ (yaml_files E path).*1 →
     TARGETS (fin r) !! name = TARGETS s !! name).
Proof.
  intros r. subst r. rewrite register_all_run. simpl.
  repeat split; try done.
  - apply bind_yaml_lookup.
  - apply bind_yaml_lookup.
Qed.

(** C2 as worded fails: a file whose type is unknown is registered like
    any other, and no warning is logged. *)
Lemma register_yaml_targets_keeps_invalid :
  ¬ skips_invalid Sample.plain "/broken" Sample.empty_state.
Proof.
  intros H.
  destruct (H "bad" "/broken/bad.yaml") as [Hreg _];
    [by left|by vm_compute|].
  vm_compute in Hreg. discriminate Hreg.
Qed.


Section RunFacts.

Variable E : Env.

Lemma bind_run {A B} (m : M A) (f : A → M B) (s : state) :
  bind m f s =
    match out (m s) with
    | Ret a =>
        Res (out (f a (fin (m s)))) (fin (f a (fin (m s))))
            (evs (m s) ++ evs (f a (fin (m s))))
    | Raise e => Res (Raise e) (fin (m s)) (evs (m s))
    end.
Proof. done. Qed.

Lemma regroup {A} (l : list A) (x : A) (l1 l2 : list A) :
  (l ++ x :: l1 ++ l2 = (l ++ x :: l1) ++ l2)%list.
Proof. by rewrite <- app_assoc. Qed.

Lemma log_message_run (verbose : bool) (m : message) (s : state) :
  log_message verbose m s =
    Res (Ret tt) s (if verbose then [EvLog EchoInfo m] else []).
Proof. by destruct verbose. Qed.

Lemma call_initializer_shape (i : initializer) (cfg : option loc)
    (u v : bool) (s : state) :
  let r := call_initializer E i cfg u v s in
  Forall (λ ev, init_noise ev = true) (evs r) ∧
  TARGETS (fin r) = TARGETS s ∧ disk_free (fin r) = disk_free s ∧
  match out r with
  | Raise _ => initializer_ok E i = false
  | Ret o =>
      initializer_ok E i = true ∧
      yields_target E i = bool_decide (is_Some (as_Target o))
  end.
Proof.
  destruct i as [c|f]; simpl.
  - repeat split; try done. destruct (issubclass c Target); symmetry.
    + by apply bool_decide_eq_true_2.
    + apply bool_decide_eq_false_2. by intros [? ?].
  - destruct (read_descriptor E f) as [d|e] eqn:Hd.
    + destruct (decide (d_type d ∈ VALID_TARGET_TYPES E)) as [Hty|Hty].
      * rewrite (bool_decide_eq_true_2 _ Hty).
        destruct (falsy (heap s) cfg) eqn:Hf.
        -- destruct (load_target_fresh E f d cfg u v s)
             as (c & Hc & Hsub & ->); [done..|]. simpl. rewrite Hsub.
           repeat split; try done; symmetry; by apply bool_decide_eq_true_2.
        -- destruct (falsy_false _ _ Hf) as (r0 & d0 & -> & Hr & Hne).
           destruct (load_target_in_place E f d r0 d0 u v s)
             as (c & Hc & Hsub & ->); [done..|]. simpl. rewrite Hsub.
           repeat split; try done; symmetry; by apply bool_decide_eq_true_2.
      * rewrite (bool_decide_eq_false_2 _ Hty).
        rewrite (load_target_unknown E f d) by done. simpl.
        repeat split; try done. by repeat constructor.
    + unfold load_target, bind, lift. simpl. rewrite Hd. simpl.
      by repeat split.
Qed.

Lemma step_shape_eq update dry_run verbose stop_on_error target_names config
    name i o o' l l' :
  step_shape E update dry_run verbose stop_on_error target_names config
    name i o l →
  o = o' → l = l' →
  step_shape E update dry_run verbose stop_on_error target_names config
    name i o' l'.
Proof. by intros H <- <-. Qed.

Section Fixed.

Variables (update dry_run verbose stop_on_error : bool).
Variable target_names : gset string.
Variable config : gmap string loc.

Lemma opening_intro (name : string) (noise : list event) :
  Forall (λ ev, init_noise ev = true) noise →
  opening update verbose config name
    (cleaning verbose name ++
     EvInit name (config !! name) update verbose :: noise)%list.
Proof. intros Hn. by exists noise. Qed.

Lemma process_target_shape (name : string) (i : initializer) (s : state) :
  let r := process_target E update dry_run verbose stop_on_error
             target_names config name i s in
  step_shape E update dry_run verbose stop_on_error target_names config
    name i (out r) (evs r) ∧
  TARGETS (fin r) = TARGETS s.
Proof.
  unfold process_target.
  destruct (decide (name ∈ target_names)) as [Hin|Hin].
  2:{ rewrite (bool_decide_eq_false_2 _ Hin). simpl.
      split; [by constructor|done]. }
  rewrite (bool_decide_eq_true_2 _ Hin). cbn [negb].
  pose proof (call_initializer_shape i (config !! name) update verbose s)
    as (Hnoise & HT & HD & Hout). simpl in Hnoise, HT, HD, Hout.
  pose proof (opening_intro name _ Hnoise) as Hpre.
  rewrite bind_run, log_message_run. cbn [out fin evs].
  rewrite bind_run. cbn [out fin evs emit]. rewrite bind_run.
  destruct (call_initializer E i (config !! name) update verbose s)
    as [[o|e] s1 l1]; simpl in *.
  2:{ split; [|done]. by apply step_init_raised. }
  destruct Hout as [Hok Hy].
  destruct (as_Target o) as [t|] eqn:Ht.
  2:{ rewrite bool_decide_eq_false_2 in Hy by (by intros [? ?]).
      split; [|done]. rewrite regroup.
      by apply step_not_a_target. }
  rewrite bool_decide_eq_true_2 in Hy by done.
  rewrite regroup.
  destruct dry_run eqn:Hdry.
  - unfold describe. rewrite ?bind_run. cbn [out fin evs get_state].
    rewrite ?bind_run. cbn [out fin evs emit lift].
    destruct (target_describe E t (heap s1)) as [text|e] eqn:Hdesc.
    + cbn [out fin evs]. rewrite ?bind_run. cbn [out fin evs echo_warn emit ret].
      rewrite ?bind_run.
      split; [|by destruct verbose].
      eapply step_shape_eq; [by apply (step_described _ _ _ _ _ _ _ _ _ text)|..];
        unfold pause; by destruct verbose.
    + cbn [out fin evs]. split; [|done]. by apply step_describe_raised.
  - unfold invoke. rewrite ?bind_run. cbn [out fin evs get_state].
    rewrite ?bind_run. cbn [out fin evs set_disk_free].
    rewrite ?bind_run. cbn [out fin evs emit ret].
    destruct (target_invoke E t (heap s1) (disk_free s1)) as [z [ex|]] eqn:Hinv;
      cbn [fst snd].
    + rewrite ?bind_run. cbn [out fin evs error emit].
      destruct stop_on_error eqn:Hstop; cbn [out fin evs ret].
      * split; [|done]. rewrite ?app_nil_r. by apply step_failed_stop.
      * rewrite ?bind_run.
        split; [|by destruct verbose].
        eapply step_shape_eq; [by apply (step_failed _ _ _ _ _ _ _ _ _ ex)|..];
          unfold pause; by destruct verbose.
    + rewrite ?bind_run.
      split; [|by destruct verbose].
      eapply step_shape_eq; [by apply step_invoked|..];
        unfold pause; by destruct verbose.
Qed.

Lemma target_loop_shape (items : list (string * initializer)) (s : state) :
  let r := target_loop E update dry_run verbose stop_on_error
             target_names config items s in
  loop_shape E update dry_run verbose stop_on_error target_names config
    items (out r) (evs r) ∧
  TARGETS (fin r) = TARGETS s.
Proof.
  revert s. induction items as [|[name i] items IH]; intros s.
  - split; [constructor|done].
  - cbn [target_loop]. rewrite bind_run.
    destruct (process_target_shape name i s) as [Hstep HT].
    destruct (process_target E update dry_run verbose stop_on_error
                target_names config name i s) as [[[|]|e] s1 l1];
      cbn [out fin evs] in *.
    + destruct (IH s1) as [Hloop HT']. split; [|congruence].
      by apply loop_went_on.
    + rewrite app_nil_r. split; [|done]. by apply loop_ended.
    + split; [|done]. by apply loop_ended.
Qed.

End Fixed.
End RunFacts.

Section LoopFacts.

Variable E : Env.
Variables (update dry_run verbose stop_on_error : bool).
Variable target_names : gset string.
Variable config : gmap string loc.

Local Abbreviation step_shape :=
  (step_shape E update dry_run verbose stop_on_error target_names config).
Local Abbreviation loop_shape :=
  (loop_shape E update dry_run verbose stop_on_error target_names config).

Lemma opening_Forall (Q : event → Prop) (name : string) (pre : list event) :
  opening update verbose config name pre →
  Q (EvLog EchoInfo (MsgCleaning (upper name))) →
  Q (EvInit name (config !! name) update verbose) →
  (∀ ev, init_noise ev = true → Q ev) →
  Forall Q pre.
Proof.
  intros (noise & Hnoise & ->) Hc Hi Hn. apply Forall_app. split.
  - unfold cleaning. destruct verbose; by repeat constructor.
  - constructor; [done|]. eapply Forall_impl; [done|]. auto.
Qed.

Lemma pause_Forall (Q : event → Prop) :
  Q EvSleep → Forall Q (pause verbose).
Proof. intros H. unfold pause. destruct verbose; by repeat constructor. Qed.

Lemma loop_event_mono (n : string) (i : initializer)
    (items : list (string * initializer)) (ev : event) :
  loop_event dry_run target_names items ev →
  loop_event dry_run target_names ((n, i) :: items) ev.
Proof.
  intros (Hd & Ht & Hc & Hm). repeat split; try done.
  - by apply Ht.
  - right. by apply Ht.
  - by apply Hc.
  - right. by apply Hc.
Qed.

Lemma loop_event_log items k m :
  message_target m = None →
  loop_event dry_run target_names items (EvLog k m).
Proof.
  intros Hm. split; [done|]. split; [done|]. split; [|by destruct dry_run].
  intros n. simpl. rewrite Hm. by destruct k.
Qed.

Lemma loop_event_complaint items k n ex :
  n ∈ target_names → n ∈ items.*1 →
  loop_event dry_run target_names items (EvLog k (MsgCouldNotCleanup n ex)).
Proof.
  intros Hn Hi. split; [done|]. split; [done|]. split; [|by destruct dry_run].
  intros n'. simpl. destruct k; try done;
    by intros [= <-]%bool_decide_eq_true.
Qed.

Lemma loop_event_call items ev n :
  touched ev = Some n → n ∈ target_names → n ∈ items.*1 →
  (if dry_run then is_invoke ev = false else is_describe ev = false) →
  loop_event dry_run target_names items ev.
Proof.
  intros Ht Hn Hi Hm. split; [by destruct ev|]. split; [|split; [|done]].
  - intros n'. rewrite Ht. by intros [= <-].
  - by destruct ev.
Qed.

Lemma loop_event_sleep items :
  loop_event dry_run target_names items EvSleep.
Proof. split; [done|]. split; [done|]. split; [done|by destruct dry_run]. Qed.

Lemma init_noise_loop_event items ev :
  init_noise ev = true → loop_event dry_run target_names items ev.
Proof.
  destruct ev as [[] []| | | | |]; try done; intros _;
    by apply loop_event_log.
Qed.

Lemma opening_events name i items pre :
  name ∈ target_names →
  opening update verbose config name pre →
  Forall (loop_event dry_run target_names ((name, i) :: items)) pre.
Proof.
  intros Hin Hpre. eapply opening_Forall; [done|..].
  - by apply loop_event_log.
  - eapply loop_event_call; [done|done|by left|by destruct dry_run].
  - apply init_noise_loop_event.
Qed.

Lemma step_events name i items o l :
  step_shape name i o l →
  Forall (loop_event dry_run target_names ((name, i) :: items)) l.
Proof.
  assert (name ∈ ((name, i) :: items).*1) as Hhere by (by left).
  destruct 1; split_Forall;
    try (by apply opening_events);
    try (apply pause_Forall, loop_event_sleep);
    try (by apply loop_event_log);
    try (by apply loop_event_complaint);
    by (eapply loop_event_call; [done..|];
        match goal with H : dry_run = _ |- _ => by rewrite H end).
Qed.

Lemma loop_events items o l :
  loop_shape items o l →
  Forall (loop_event dry_run target_names items) l.
Proof.
  induction 1 as [|name i items o l Hstep _|name i items l o' l' Hstep _ IH].
  - constructor.
  - by eapply step_events.
  - apply Forall_app. split; [by eapply step_events|].
    eapply Forall_impl; [done|]. apply loop_event_mono.
Qed.

End LoopFacts.

(** ** Where a failure sits in the events of the loop *)

Lemma marker_position {A} (P : A → bool) (t u t1 t2 : list A) (x y : A) :
  Forall (λ a, P a = false) t → Forall (λ a, P a = false) u →
  P y = true →
  (t ++ x :: u = t1 ++ y :: t2)%list →
  t1 = t ∧ y = x ∧ t2 = u.
Proof.
  intros Ht Hu Hy. revert t1.
  induction Ht as [|a t Ha Ht IH]; intros [|b t1] Heq; simplify_eq/=.
  - done.
  - apply Forall_app in Hu as [_ Hu]. apply Forall_cons in Hu as [Hy' _].
    congruence.
  - congruence.
  - destruct (IH t1) as (-> & -> & ->); done.
Qed.

Lemma marker_absent {A} (P : A → bool) (l t1 t2 : list A) (y : A) :
  Forall (λ a, P a = false) l → P y = true → l ≠ (t1 ++ y :: t2)%list.
Proof.
  intros Hl Hy ->. apply Forall_app in Hl as [_ Hl].
  apply Forall_cons in Hl as [Hy' _]. congruence.
Qed.

Section Failures.

Variable E : Env.
Variables (update verbose : bool).
Variable target_names : gset string.
Variable config : gmap string loc.

Lemma opening_clean (P : event → bool) (name : string) (pre : list event) :
  opening update verbose config name pre →
  (∀ ev, is_log ev = true → P ev = false) →
  (∀ n c u v, P (EvInit n c u v) = false) →
  Forall (λ ev, P ev = false) pre.
Proof.
  intros Hpre Hlog Hinit. eapply opening_Forall; [done|by apply Hlog|done|].
  intros [[] []| | | | |]; try done; intros _; by apply Hlog.
Qed.

Lemma pause_clean (P : event → bool) :
  P EvSleep = false → Forall (λ ev, P ev = false) (pause verbose).
Proof. intros H. by apply (pause_Forall verbose (λ ev, P ev = false)). Qed.

(** In a turn of the loop a raising [describe] is the last event, and the
    turn ends with that exception. *)
Lemma step_describe_last dry_run stop_on_error name i o l :
  step_shape E update dry_run verbose stop_on_error target_names config
    name i o l →
  Forall (λ ev, failed_describe ev = false) l ∨
  ∃ t e, l = (t ++ [EvDescribe name (Raise e)])%list ∧
         Forall (λ ev, failed_describe ev = false) t ∧ o = Raise e.
Proof.
  destruct 1;
    try (left; split_Forall; try done;
         first [by (eapply opening_clean; [eassumption|by intros []|done]) | by apply pause_clean]).
  right. exists pre, e. split; [done|]. split; [|done].
  by (eapply opening_clean; [eassumption|by intros []|done]).
Qed.

Lemma loop_describe_last dry_run stop_on_error items o l :
  loop_shape E update dry_run verbose stop_on_error target_names config
    items o l →
  Forall (λ ev, failed_describe ev = false) l ∨
  ∃ t n e, l = (t ++ [EvDescribe n (Raise e)])%list ∧
           Forall (λ ev, failed_describe ev = false) t ∧ o = Raise e.
Proof.
  induction 1 as [|name i items o l Hstep _|name i items l o' l' Hstep _ IH].
  - by left.
  - destruct (step_describe_last _ _ _ _ _ _ Hstep) as [?|(t & e & ?)];
      [by left|right; by exists t, name, e].
  - destruct (step_describe_last _ _ _ _ _ _ Hstep)
      as [Hl|(t & e & _ & _ & ?)]; [|done].
    destruct IH as [Hl'|(t & n & e & -> & Ht & ->)].
    + left. by apply Forall_app_2.
    + right. exists (l ++ t)%list, n, e. rewrite app_assoc.
      split; [done|]. split; [by apply Forall_app_2|done].
Qed.

(** With [stop_on_error], a failing call is followed by its error line
    and the end of the loop. *)
Lemma step_invoke_last dry_run name i o l :
  step_shape E update dry_run verbose true target_names config name i o l →
  Forall (λ ev, failed_invoke ev = false) l ∨
  ∃ t ex, l = (t ++ EvInvoke name (Some ex) ::
                 [EvLog LogError (MsgCouldNotCleanup name ex)])%list ∧
          Forall (λ ev, failed_invoke ev = false) t ∧ o = Ret Break.
Proof.
  destruct 1;
    try (left; split_Forall; try done;
         first [by (eapply opening_clean; [eassumption|by intros []|done]) | by apply pause_clean]).
  right. exists pre, ex. split; [done|]. split; [|done].
  by (eapply opening_clean; [eassumption|by intros []|done]).
Qed.

Lemma loop_invoke_last dry_run items o l :
  loop_shape E update dry_run verbose true target_names config items o l →
  Forall (λ ev, failed_invoke ev = false) l ∨
  ∃ t n ex, l = (t ++ EvInvoke n (Some ex) ::
                   [EvLog LogError (MsgCouldNotCleanup n ex)])%list ∧
            Forall (λ ev, failed_invoke ev = false) t ∧ o = Ret Break.
Proof.
  induction 1 as [|name i items o l Hstep _|name i items l o' l' Hstep _ IH].
  - by left.
  - destruct (step_invoke_last _ _ _ _ _ Hstep) as [?|(t & e & ?)];
      [by left|right; by exists t, name, e].
  - destruct (step_invoke_last _ _ _ _ _ Hstep)
      as [Hl|(t & e & _ & _ & ?)]; [|done].
    destruct IH as [Hl'|(t & n & e & -> & Ht & ->)].
    + left. by apply Forall_app_2.
    + right. exists (l ++ t)%list, n, e. rewrite app_assoc.
      split; [done|]. split; [by apply Forall_app_2|done].
Qed.

End Failures.

(** ** Which targets an execute run calls *)

Section Execute.

Variable E : Env.
Variables (update verbose : bool).
Variable target_names : gset string.
Variable config : gmap string loc.

Lemma yields_target_ok (i : initializer) :
  yields_target E i = true → initializer_ok E i = true.
Proof.
  destruct i as [c|f]; simpl; [done|]. by destruct (read_descriptor E f).
Qed.








(** Without [stop_on_error], once the selected initializers before it
    return, a selected target that exists is called. *)
Lemma step_invokes stop_on_error name i o l :
  step_shape E update false verbose stop_on_error target_names config
    name i o l →
  name ∈ target_names → yields_target E i = true →
  ∃ r, EvInvoke name r ∈ l.
Proof.
  intros Hstep Hin Hy. pose proof (yields_target_ok _ Hy) as Hok.
  destruct Hstep; try done; try congruence.
  - exists None. apply elem_of_app. right. by left.
  - exists (Some ex). apply elem_of_app. right. by left.
  - exists (Some ex). apply elem_of_app. right. by left.
Qed.

Lemma loop_reaches pre name i post o l :
  loop_shape E update false verbose false target_names config
    (pre ++ (name, i) :: post) o l →
  (∀ n j, (n, j) ∈ pre → n ∈ target_names → initializer_ok E j = true) →
  name ∈ target_names → yields_target E i = true →
  ∃ r, EvInvoke name r ∈ l.
Proof.
  revert o l. induction pre as [|[n j] pre IH]; intros o l Hloop Hpre Hin Hy.
  - simpl in Hloop. inversion Hloop as [|? ? ? ? ? Hstep|? ? ? ? ? ? Hstep];
      subst.
    + by eapply step_invokes.
    + destruct (step_invokes _ _ _ _ _ Hstep Hin Hy) as [r Hr].
      exists r. apply elem_of_app. by left.
  - simpl in Hloop.
    inversion Hloop as [|? ? ? ? ? Hstep Ho|? ? ? ? ? ? Hstep Hrest]; subst.
    + exfalso. inversion Hstep; subst; try done.
      assert (initializer_ok E j = true) by (eapply Hpre; [by left|done]).
      congruence.
    + destruct (IH _ _ Hrest) as [r Hr]; [|done..|].
      * intros n' j' Hn'. apply Hpre. by right.
      * exists r. apply elem_of_app. by right.
Qed.

End Execute.

(** ** The run as a whole *)

Section Cli.

Variable E : Env.

Lemma alloc_config_run (cfg : list (string * pydict)) (s : state) :
  let r := alloc_config cfg s in
  (∃ m, out r = Ret m) ∧ evs r = [] ∧
  TARGETS (fin r) = TARGETS s ∧ disk_free (fin r) = disk_free s.
Proof.
  revert s. induction cfg as [|[k d] cfg IH]; intros s; cbn [alloc_config].
  - split; [by eexists|done].
  - rewrite bind_run. cbn [out fin evs alloc]. rewrite bind_run.
    destruct (IH (State (TARGETS s) (heap s ++ [d]) (disk_free s)))
      as ((m & Hm) & He & HT & HD).
    rewrite Hm, He. cbn. split; [by eexists|done].
Qed.

Lemma get_options_run (path : option string) (s : state) :
  let r := get_options E path s in
  Forall (λ ev, startup_log ev = true) (evs r) ∧
  TARGETS (fin r) = TARGETS s ∧ disk_free (fin r) = disk_free s.
Proof.
  unfold get_options. rewrite bind_run.
  set (p := abspath E _). clearbody p.
  assert (∃ l, Forall (λ ev, startup_log ev = true) l ∧
            (match read_config E p with
             | Some file => lift file
             | None => warn MsgConfigNotFound;; ret []
             end) s =
            Res (match read_config E p with
                 | Some file => file
                 | None => Ret []
                 end) s l) as (l & Hl & ->).
  { destruct (read_config E p) as [file|].
    - by exists [].
    - exists [EvLog LogWarn MsgConfigNotFound]. split; [by repeat constructor|done]. }
  cbn [out fin evs].
  destruct (match read_config E p with Some file => file | None => Ret [] end)
    as [raw|e]; [|done].
  rewrite bind_run. cbn [out fin evs lift].
  destruct (validate_yaml_config E raw) as [cfg|e]; [|by rewrite app_nil_r].
  destruct (alloc_config_run cfg s) as ((m & Hm) & He & HT & HD).
  rewrite Hm, He. cbn. by rewrite !app_nil_r.
Qed.

Lemma config_targets_path_run (config : gmap string loc) (s : state) :
  ∃ paths, _config_targets_path config s = Res (Ret paths) s [].
Proof.
  unfold _config_targets_path. rewrite bind_run. cbn.
  destruct (config !! "cleanmymac") as [r|]; [|by eexists].
  destruct (deref (heap s) r !! "targets_path"); by eexists.
Qed.

Lemma register_paths_run (paths : list string) (s : state) :
  let r := for_each paths (register_yaml_targets E) s in
  out r = Ret tt ∧ Forall (λ ev, startup_log ev = true) (evs r) ∧
  disk_free (fin r) = disk_free s.
Proof.
  revert s. induction paths as [|p paths IH]; intros s; cbn [for_each];
    [done|].
  rewrite bind_run.
  rewrite (register_all_run E p s). cbn [out fin evs].
  destruct (IH (State (foldl bind_yaml (TARGETS s) (yaml_files E p)) (heap s)
                  (disk_free s))) as (Ho' & He' & HD').
  split; [done|]. split; [|done].
  apply Forall_app_2; [|done]. apply Forall_map. by apply Forall_true.
Qed.

Lemma list_targets_run (items : list (string * initializer)) (s : state) :
  for_each items (λ '(name, _), echo_warn (MsgListItem name)) s =
    Res (Ret tt) s (map (λ p, EvLog EchoWarn (MsgListItem p.1)) items).
Proof.
  induction items as [|[n i] items IH]; [done|].
  cbn [for_each]. rewrite bind_run. cbn. by rewrite IH.
Qed.

Lemma cli_run update dry_run quiet list_targets stop_on_error
    (config : option string) (targets_path targets : list string)
    (s : state) :
  let r := cli E update dry_run quiet list_targets stop_on_error config
             targets_path targets s in
  let names : gset string :=
    match targets with [] => dom (TARGETS s) | _ => list_to_set targets end in
  ∃ pre, Forall (λ ev, startup_log ev = true) pre ∧
    ((∃ e, out r = Raise e ∧ evs r = pre) ∨
     (list_targets = true ∧ out r = Ret tt ∧
      evs r = (pre ++ map (λ p, EvLog EchoWarn (MsgListItem p.1))
                        (map_to_list (TARGETS s)))%list) ∨
     (list_targets = false ∧ ∃ cfg o l,
        loop_shape E update dry_run (negb quiet) stop_on_error names cfg
          (map_to_list (TARGETS s)) o l ∧
        match o with
        | Raise e =>
            out r = Raise e ∧
            evs r = (pre ++ EvDiskUsage (disk_free s) :: l)%list
        | Ret _ =>
            out r = Ret tt ∧
            evs r = (pre ++ EvDiskUsage (disk_free s) :: l ++
                     EvDiskUsage (disk_free (fin r)) ::
                     report dry_run quiet (disk_free s) (disk_free (fin r)))%list
        end)).
Proof.
  intros r names. assert (r = cli E update dry_run quiet list_targets
    stop_on_error config targets_path targets s) as Hr by done.
  clearbody r. unfold cli in Hr. rewrite bind_run in Hr.
  cbn [out fin evs iter_targets bind get_state ret] in Hr.
  unfold dict_of in Hr. rewrite list_to_map_to_list in Hr.
  rewrite bind_run, log_message_run in Hr. cbn [out fin evs] in Hr.
  rewrite bind_run in Hr.
  assert (Forall (λ ev, startup_log ev = true)
            (if negb quiet then [EvLog EchoInfo (MsgFound (size (TARGETS s)))]
             else [])) as He0 by (destruct quiet; by repeat constructor).
  destruct (get_options_run config s) as (He1 & HT1 & HD1).
  destruct (get_options E config s) as [[cfg|e] s1 l1]; cbn [out fin evs] in *.
  2:{ subst r. eexists. split; [|left; eexists; split; reflexivity].
      simpl. by apply Forall_app_2. }
  rewrite bind_run in Hr.
  destruct (config_targets_path_run cfg s1) as [paths Hp].
  rewrite Hp in Hr. cbn [out fin evs] in Hr.
  rewrite bind_run in Hr.
  destruct (register_paths_run paths s1) as (Ho2 & He2 & HD2).
  destruct (for_each paths (register_yaml_targets E) s1) as [o2 s2 l2];
    cbn [out fin evs] in *. subst o2.
  rewrite bind_run in Hr.
  assert (Forall (λ ev, startup_log ev = true)
            (([] ++ (if negb quiet
                     then [EvLog EchoInfo (MsgFound (size (TARGETS s)))]
                     else []) ++ l1 ++ [] ++ l2)%list)) as Hpre
    by (simpl; by repeat apply Forall_app_2).
  destruct targets_path as [|tp tps]; cbn [out fin evs ret] in Hr.
  2:{ subst r. eexists. split; [|left; eexists; split; reflexivity].
      cbn. by rewrite !app_nil_r. }
  destruct list_targets.
  { rewrite list_targets_run in Hr. subst r. eexists. split; [exact Hpre|].
    right. left. split; [done|]. split; [done|]. cbn.
    by rewrite <- !app_assoc. }
  rewrite bind_run in Hr.
  cbn [out fin evs get_disk_usage bind get_state emit ret] in Hr.
  rewrite bind_run in Hr.
  destruct (target_loop_shape E update dry_run (negb quiet) stop_on_error
              names cfg (map_to_list (TARGETS s)) s2) as [Hloop _].
  fold names in Hr.
  destruct (target_loop E update dry_run (negb quiet) stop_on_error names cfg
              (map_to_list (TARGETS s)) s2) as [[f|e] s3 l3];
    cbn [out fin evs] in *.
  2:{ subst r. eexists. split; [exact Hpre|]. right. right. split; [done|].
      exists cfg, (Raise e), l3. split; [done|]. split; [done|]. cbn.
      rewrite <- ?app_assoc. cbn. rewrite <- ?app_assoc. cbn.
      by rewrite HD2, HD1. }
  rewrite bind_run in Hr.
  cbn [out fin evs get_disk_usage bind get_state emit ret] in Hr.
  assert (∀ z, ∃ l,
    (if negb dry_run
     then log_message (negb quiet) MsgCleanupComplete;;
          log_message (negb quiet) (MsgFreed (disk_free s3 - z))
     else ret ()) s3 = Res (Ret tt) s3 l ∧
    l = report dry_run quiet z (disk_free s3)) as Hreport.
  { intros z. unfold report. destruct dry_run; cbn [negb]; [by eexists|].
    rewrite bind_run, !log_message_run. cbn. destruct quiet; by eexists. }
  destruct (Hreport (disk_free s2)) as (l4 & Hl4 & ->). rewrite Hl4 in Hr.
  cbn [out fin evs] in Hr.
  subst r. eexists. split; [exact Hpre|]. right. right. split; [done|].
  exists cfg, (Ret f), l3. split; [done|]. split; [done|]. cbn.
  rewrite <- ?app_assoc. cbn. rewrite <- ?app_assoc. cbn.
  by rewrite HD2, HD1.
Qed.

End Cli.

(** ** The claims about the run *)

Lemma startup_not (P : event → bool) (pre : list event) :
  (∀ ev, is_log ev = true → P ev = false) →
  Forall (λ ev, startup_log ev = true) pre →
  Forall (λ ev, P ev = false) pre.
Proof.
  intros HP Hpre. eapply Forall_impl; [exact Hpre|].
  intros [[] []| | | | |]; try done; intros _; by apply HP.
Qed.


(** C9. In a dry run, once a target's [describe()] has raised, that is
    the last thing the run does and the exception is the outcome of [cli]:
    no handler reports it, no later target is touched and the closing disk
    measurement does not happen, whether [stop_on_error] is set or not. *)
Theorem describe_failure_aborts_run (E : Env)
    (update quiet list_targets stop_on_error : bool) (config : option string)
    (targets_path targets : list string) (s : state)
    (t1 t2 : list event) (name : string) (e : exn) :
  let r := cli E update true quiet list_targets stop_on_error config
             targets_path targets s in
  evs r = (t1 ++ EvDescribe name (Raise e) :: t2)%list →
  out r = Raise e ∧ t2 = [].
Proof.
  intros r Hevs.
  assert (∀ ev, is_log ev = true → failed_describe ev = false) as Hlog
    by (by intros []).
  destruct (cli_run E update true quiet list_targets stop_on_error config
              targets_path targets s) as (pre & Hpre & Hcases).
  fold r in Hcases. apply (startup_not failed_describe _ Hlog) in Hpre.
  assert (∀ l, Forall (λ ev, failed_describe ev = false) l → evs r ≠ l)
    as Habs.
  { intros l Hl Hr. rewrite Hr in Hevs.
    exact (marker_absent failed_describe l t1 t2
             (EvDescribe name (Raise e)) Hl eq_refl Hevs). }
  destruct Hcases as [(e' & _ & He)|[(_ & _ & He)|(_ & cfg & o & l & Hl & Ho)]].
  - by apply Habs in He.
  - apply Habs in He; [done|]. apply Forall_app_2; [done|].
    apply Forall_map. by apply Forall_true.
  - destruct (loop_describe_last _ _ _ _ _ _ _ _ _ _ Hl)
      as [Hclean|(t & n & e' & -> & Ht & ->)].
    + exfalso. destruct o as [f|e'], Ho as [_ He];
        (apply Habs in He; [done|]); by split_Forall.
    + destruct Ho as [Ho He].
      assert (((pre ++ EvDiskUsage (disk_free s) :: t) ++
               EvDescribe n (Raise e') :: [] =
               t1 ++ EvDescribe name (Raise e) :: t2)%list) as Heq
        by (by rewrite <- Hevs, He, <- app_assoc).
      apply (marker_position failed_describe) in Heq
        as (_ & [= _ ->] & ->); [done| |done|done].
      by split_Forall.
Qed.

Lemma describe_failure_aborts_run_witness :
  let r := cli Sample.failing false true false false true None [] []
             Sample.one_target in
  evs r = ([EvLog EchoInfo (MsgFound 1); EvLog LogWarn MsgConfigNotFound;
            EvDiskUsage 100; EvLog EchoInfo (MsgCleaning "A");
            EvInit "a" None false true] ++
           EvDescribe "a" (Raise (Exn "OSError" "no such command")) :: [])%list ∧
  out r = Raise (Exn "OSError" "no such command") ∧ @nil event = [].
Proof.
  intros r.
  assert (evs r = ([EvLog EchoInfo (MsgFound 1);
                    EvLog LogWarn MsgConfigNotFound;
                    EvDiskUsage 100; EvLog EchoInfo (MsgCleaning "A");
                    EvInit "a" None false true] ++
                   EvDescribe "a" (Raise (Exn "OSError" "no such command"))
                   :: [])%list) as Hevs by (by vm_compute).
  split; [exact Hevs|].
  exact (describe_failure_aborts_run Sample.failing false false false true
           None [] [] Sample.one_target _ _ _ _ Hevs).
Defined.




Section CliFacts.

Variable E : Env.

Lemma elem_of_keys (m : gmap string initializer) (n : string) :
  n ∈ (map_to_list m).*1 ↔ n ∈ dom m.
Proof.
  rewrite elem_of_dom, list_elem_of_fmap. split.
  - intros ([n' i] & -> & Hin%elem_of_map_to_list). by exists i.
  - intros [i Hi]. exists (n, i). split; [done|].
    by apply elem_of_map_to_list.
Qed.

Lemma cli_events update dry_run quiet list_targets stop_on_error
    (config : option string) (targets_path targets : list string)
    (s : state) :
  let names : gset string :=
    match targets with [] => dom (TARGETS s) | _ => list_to_set targets end in
  Forall (cli_event names (TARGETS s))
    (evs (cli E update dry_run quiet list_targets stop_on_error config
            targets_path targets s)).
Proof.
  intros names.
  assert (∀ pre, Forall (λ ev, startup_log ev = true) pre →
            Forall (cli_event names (TARGETS s)) pre) as Hstart.
  { intros pre Hpre. eapply Forall_impl; [exact Hpre|].
    intros [[] []| | | | |]; try done; intros _; by split. }
  assert (∀ z, cli_event names (TARGETS s) (EvDiskUsage z)) as Hdisk
    by (by split).
  destruct (cli_run E update dry_run quiet list_targets stop_on_error config
              targets_path targets s) as (pre & Hpre & Hcases).
  fold names in Hcases.
  assert (∀ cfg o l,
    loop_shape E update dry_run (negb quiet) stop_on_error names cfg
      (map_to_list (TARGETS s)) o l →
    Forall (cli_event names (TARGETS s)) l) as Hloop.
  { intros cfg o l Hl. eapply Forall_impl; [by eapply loop_events|].
    intros ev (_ & Ht & Hc & _). split.
    - intros n Hn. destruct (Ht n Hn) as [? ?%elem_of_keys]. done.
    - intros n Hn. destruct (Hc n Hn) as [? ?%elem_of_keys]. done. }
  destruct Hcases as [(e' & _ & ->)|[(_ & _ & ->)|(_ & cfg & o & l & Hl & Ho)]].
  - by apply Hstart.
  - apply Forall_app_2; [by apply Hstart|]. apply Forall_map.
    apply Forall_forall. intros [n i] Hin%elem_of_map_to_list. split; [done|].
    simpl. intros n' [= <-]%bool_decide_eq_true. by apply elem_of_dom.
  - destruct o as [f|e'], Ho as [_ ->]; split_Forall;
      try (by apply Hstart); try done; try (by eapply Hloop).
    unfold report. destruct dry_run, quiet; split_Forall; by split.
Qed.



Lemma bind_ext_run {A B} (m : M A) (f g : A → M B) (s : state) :
  (∀ a, out (m s) = Ret a → f a (fin (m s)) = g a (fin (m s))) →
  bind m f s = bind m g s.
Proof.
  intros Hfg. rewrite !bind_run. destruct (out (m s)) as [a|e]; [|done].
  by rewrite Hfg.
Qed.





End CliFacts.

(** C4. In an execute run of the target loop: with [stop_on_error], a
    target call that raises is followed by its error line and nothing
    else, the loop being left by [break], so no later target is
    initialised or called; without it, a selected target whose initializer
    yields a [Target] is called whatever the calls before it did, provided
    the initializers of the selected targets before it returned. *)
Theorem stop_on_error_decides_later_targets (E : Env) (update verbose : bool)
    (target_names : gset string) (config : gmap string loc) :
  (∀ items s t1 A e t2,
     evs (target_loop E update false verbose true target_names config
            items s) = (t1 ++ EvInvoke A (Some e) :: t2)%list →
     out (target_loop E update false verbose true target_names config
            items s) = Ret Break ∧
     t2 = [EvLog LogError (MsgCouldNotCleanup A e)]) ∧
  (∀ pre B ib post s,
     (∀ n j, (n, j) ∈ pre → n ∈ target_names → initializer_ok E j = true) →
     B ∈ target_names → yields_target E ib = true →
     ∃ r, EvInvoke B r ∈
            evs (target_loop E update false verbose false target_names config
                   (pre ++ (B, ib) :: post) s)).
Proof.
  split.
  - intros items s t1 A e t2 Hevs.
    destruct (target_loop_shape E update false verbose true target_names
                config items s) as [Hloop _].
    destruct (loop_invoke_last _ _ _ _ _ _ _ _ _ Hloop)
      as [Hclean|(t & n & ex & Hl & Ht & Ho)].
    + rewrite Hevs in Hclean.
      by destruct (marker_absent failed_invoke _ t1 t2
                     (EvInvoke A (Some e)) Hclean eq_refl).
    + split; [done|]. rewrite Hl in Hevs.
      apply (marker_position failed_invoke) in Hevs
        as (_ & [= -> ->] & ->); [done|done| |done].
      by split_Forall.
  - intros pre B ib post s Hpre HB Hy.
    destruct (target_loop_shape E update false verbose false target_names
                config (pre ++ (B, ib) :: post) s) as [Hloop _].
    by eapply loop_reaches.
Qed.

Lemma stop_on_error_decides_later_targets_witness :
  let items := [("a", InitYaml "/builtins/a.yaml");
                ("b", InitYaml "/builtins/b.yaml")] in
  let failure := Exn "OSError" "command failed" in
  (evs (target_loop Sample.failing false false true true {["a"; "b"]} ∅
          items Sample.empty_state) =
     ([EvLog EchoInfo (MsgCleaning "A"); EvInit "a" None false true] ++
      EvInvoke "a" (Some failure) ::
      [EvLog LogError (MsgCouldNotCleanup "a" failure)])%list ∧
   out (target_loop Sample.failing false false true true {["a"; "b"]} ∅
          items Sample.empty_state) = Ret Break) ∧
  ("b" ∈ ({["a"; "b"]} : gset string) ∧
   yields_target Sample.failing (InitYaml "/builtins/b.yaml") = true ∧
   ∃ r, EvInvoke "b" r ∈
          evs (target_loop Sample.failing false false true false {["a"; "b"]}
                 ∅ ([("a", InitYaml "/builtins/a.yaml")] ++
                    ("b", InitYaml "/builtins/b.yaml") :: [])
                 Sample.empty_state)).
Proof.
  intros items failure.
  pose proof (stop_on_error_decides_later_targets Sample.failing false true
                {["a"; "b"]} ∅) as [Hstop Hgo].
  split.
  - assert (evs (target_loop Sample.failing false false true true
                   {["a"; "b"]} ∅ items Sample.empty_state) =
            ([EvLog EchoInfo (MsgCleaning "A"); EvInit "a" None false true] ++
             EvInvoke "a" (Some failure) ::
             [EvLog LogError (MsgCouldNotCleanup "a" failure)])%list)
      as Hevs by (by vm_compute).
    split; [exact Hevs|]. exact (proj1 (Hstop _ _ _ _ _ _ Hevs)).
  - assert ("b" ∈ ({["a"; "b"]} : gset string)) as Hb by set_solver.
    split; [exact Hb|]. split; [reflexivity|].
    apply (Hgo [("a", InitYaml "/builtins/a.yaml")] "b"
             (InitYaml "/builtins/b.yaml") [] Sample.empty_state).
    + intros n j _ _. destruct j; [reflexivity|].
      unfold initializer_ok. simpl. unfold Sample.descriptors.
      by case_bool_decide.
    + exact Hb.
    + reflexivity.
Defined.



(** The sample run: C comes before A in the registry's order, B is left
    alone. *)
Example explicit_selection_sample :
  invoked_names
    (evs (cli Sample.plain false false false false false None [] ["a"; "c"]
            Sample.three_targets)) = ["c"; "a"].
Proof. by vm_compute. Qed.




(** C1 fails on the code.  The targets found under an extra directory
    named by the configuration do reach [__TARGETS__] before the loop, but
    [cli] goes through the copy of the registry it took on entry: with "a"
    registered and /extra holding b.yaml, "b" is in the registry when the
    run ends and was neither listed nor initialised nor called. *)
Theorem extra_targets_registered_but_not_run :
  let run := cli Sample.with_extra false false false false false None [] []
               Sample.one_target in
  let listing := cli Sample.with_extra false false false true false None [] []
                   Sample.one_target in
  TARGETS (fin run) !! "b" = Some (InitYaml "/extra/b.yaml") ∧
  out run = Ret tt ∧
  initialized_names (evs run) = ["a"] ∧
  invoked_names (evs run) = ["a"] ∧
  evs listing = [EvLog EchoInfo (MsgFound 1);
                 EvLog LogDebug (MsgRegistering "b");
                 EvLog EchoWarn (MsgListItem "a")].
Proof. by vm_compute. Qed.

(** The same for every run: whatever is registered along the way, only
    names that were in the registry when [cli] was entered are listed,
    initialised, described or called. *)
Lemma cli_works_on_entry_registry (E : Env)
    (update dry_run quiet list_targets stop_on_error : bool)
    (config : option string) (targets_path targets : list string)
    (s : state) (ev : event) (name : string) :
  ev ∈ evs (cli E update dry_run quiet list_targets stop_on_error config
              targets_path targets s) →
  touched ev = Some name ∨ ev = EvLog EchoWarn (MsgListItem name) →
  name ∈ dom (TARGETS s).
Proof.
  intros Hev Hname.
  pose proof (cli_events E update dry_run quiet list_targets stop_on_error
                config targets_path targets s) as Hall.
  cbn zeta in Hall. rewrite Forall_forall in Hall.
  destruct (Hall ev Hev) as [Ht Hc]. destruct Hname as [Hn| ->].
  - by destruct (Ht name Hn).
  - apply Hc. simpl. by apply bool_decide_eq_true_2.
Qed.

(** With [-t], [cli] does not get to the targets at all. *)
Example targets_path_option_raises :
  out (cli Sample.plain false false false false false None ["/extra"] []
         Sample.one_target) =
    Raise (TypeError "coercing to Unicode: need string or buffer, tuple found").
Proof. by vm_compute. Qed.

(** ** More on the registry *)

(** A class registered under a name is what [get_target] hands back for
    that name, and no error is logged on the way. *)
Theorem register_then_get (name : string) (c : pyclass) (s : state) :
  issubclass c Target = true →
  let r := (register_target name (ArgClass c) ;; get_target name) s in
  out r = Ret (Some (InitClass c)) ∧
  evs r = [EvLog LogDebug (MsgRegistering name)] ∧
  TARGETS (fin r) = <[name := InitClass c]> (TARGETS s).
Proof.
  intros Hc r. subst r. unfold register_target, get_target, bind.
  rewrite Hc. simpl. by rewrite lookup_insert_eq.
Qed.

Lemma register_then_get_witness :
  let r := (register_target "brew" (ArgClass YamlDirTarget) ;;
            get_target "brew") Sample.one_target in
  issubclass YamlDirTarget Target = true ∧
  out r = Ret (Some (InitClass YamlDirTarget)) ∧
  evs r = [EvLog LogDebug (MsgRegistering "brew")] ∧
  TARGETS (fin r) =
    <["brew" := InitClass YamlDirTarget]> (TARGETS Sample.one_target).
Proof.
  intros r. split; [reflexivity|].
  exact (register_then_get "brew" YamlDirTarget Sample.one_target eq_refl).
Defined.

(** Registering the same name twice keeps the second class, and no other
    name is affected. *)
Theorem register_target_last_wins (name other : string) (c1 c2 : pyclass)
    (s : state) :
  issubclass c1 Target = true → issubclass c2 Target = true →
  let r := (register_target name (ArgClass c1) ;;
            register_target name (ArgClass c2)) s in
  out r = Ret tt ∧
  TARGETS (fin r) !! name = Some (InitClass c2) ∧
  (other ≠ name → TARGETS (fin r) !! other = TARGETS s !! other).
Proof.
  intros H1 H2 r. subst r. unfold register_target, bind.
  rewrite H1, H2. simpl. split; [done|]. split.
  - by rewrite lookup_insert_eq.
  - intros Hne. by rewrite !lookup_insert_ne.
Qed.

Lemma register_target_last_wins_witness :
  let r := (register_target "brew" (ArgClass YamlDirTarget) ;;
            register_target "brew" (ArgClass YamlShellCommandTarget))
             Sample.one_target in
  (issubclass YamlDirTarget Target = true ∧
   issubclass YamlShellCommandTarget Target = true) ∧
  out r = Ret tt ∧
  TARGETS (fin r) !! "brew" = Some (InitClass YamlShellCommandTarget) ∧
  ("a" ≠ "brew" → TARGETS (fin r) !! "a" = TARGETS Sample.one_target !! "a").
Proof.
  intros r. split; [by split|].
  exact (register_target_last_wins "brew" "a" YamlDirTarget
           YamlShellCommandTarget Sample.one_target eq_refl eq_refl).
Defined.

(** After a directory has been registered, [get_target] finds every name
    the scan yielded, bound to the deferred load of a file yielded under
    that name, without logging an error; for a name that was neither
    yielded nor registered before it returns [None], logs one error that
    names it and does not raise. *)
Theorem register_yaml_then_get (E : Env) (path name : string) (s : state) :
  let r := (register_yaml_targets E path ;; get_target name) s in
  let lines := map (λ p, EvLog LogDebug (MsgRegistering p.1))
                 (yaml_files E path) in
  (name ∈ (yaml_files E path).*1 →
   ∃ yaml_file, (name, yaml_file) ∈ yaml_files E path ∧
     out r = Ret (Some (InitYaml yaml_file)) ∧ evs r = lines) ∧
  (name ∉ (yaml_files E path).*1 → TARGETS s !! name = None →
   out r = Ret None ∧
   evs r = (lines ++ [EvLog LogError (MsgNoTargetFound name)])%list).
Proof.
  intros r lines. subst r lines. rewrite bind_run, register_all_run.
  cbn [out fin evs]. unfold get_target. rewrite bind_run.
  cbn [out fin evs get_state TARGETS].
  destruct (bind_yaml_lookup (yaml_files E path) (TARGETS s) name)
    as [Hin Hout].
  split.
  - intros Hname. destruct (Hin Hname) as (f & Hf & Hl). exists f.
    rewrite Hl. cbn. by rewrite app_nil_r.
  - intros Hname Hnone. rewrite (Hout Hname), Hnone. by cbn.
Qed.

(** When two directories are registered one after the other, a name found
    in the second is bound to the second's file, a name found only in the
    first to the first's, and every other name keeps its binding. *)
Theorem later_path_overrides (E : Env) (p1 p2 name : string) (s : state) :
  let r := for_each [p1; p2] (register_yaml_targets E) s in
  out r = Ret tt ∧
  (name ∈ (yaml_files E p2).*1 →
   ∃ f, (name, f) ∈ yaml_files E p2 ∧
        TARGETS (fin r) !! name = Some (InitYaml f)) ∧
  (name ∉ (yaml_files E p2).*1 → name ∈ (yaml_files E p1).*1 →
   ∃ f, (name, f) ∈ yaml_files E p1 ∧
        TARGETS (fin r) !! name = Some (InitYaml f)) ∧
  (name ∉ (yaml_files E p2).*1 → name ∉ (yaml_files E p1).*1 →
   TARGETS (fin r) !! name = TARGETS s !! name).
Proof.
  intros r. subst r. cbn [for_each].
  rewrite bind_run, register_all_run. cbn [out fin evs].
  rewrite bind_run, register_all_run. cbn [out fin evs TARGETS ret].
  set (m1 := foldl bind_yaml (TARGETS s) (yaml_files E p1)).
  destruct (bind_yaml_lookup (yaml_files E p2) m1 name) as [Hin2 Hout2].
  destruct (bind_yaml_lookup (yaml_files E p1) (TARGETS s) name)
    as [Hin1 Hout1]. fold m1 in Hin1, Hout1.
  split; [done|]. split; [done|]. split.
  - intros H2 H1. rewrite (Hout2 H2). by apply Hin1.
  - intros H2 H1. by rewrite (Hout2 H2), (Hout1 H1).
Qed.

(** [load_target] never touches the registry or the disk, never drops a
    dict and creates at most one; the dicts other than the config it was
    given stay as they were.  What it returns is [None] or an instance of
    a [Target] class with the flags it was given, and its second error
    branch (a class that is no [Target]) is never taken. *)
Theorem load_target_frame (E : Env) (yaml_file : string)
    (config : option loc) (update verbose : bool) (s : state) :
  let r := load_target E yaml_file config update verbose s in
  TARGETS (fin r) = TARGETS s ∧ disk_free (fin r) = disk_free s ∧
  (length (heap s) ≤ length (heap (fin r)) ≤ S (length (heap s)))%nat ∧
  (∀ r0 d0, heap s !! r0 = Some d0 → config ≠ Some r0 →
            heap (fin r) !! r0 = Some d0) ∧
  (∀ o, out r = Ret o →
        o = PyNone ∨
        ∃ t, o = PyInst t ∧ issubclass (inst_class t) Target = true ∧
             inst_update t = update ∧ inst_verbose t = verbose) ∧
  (∀ file c, EvLog LogError (MsgExpectedSubclass file c) ∉ evs r).
Proof.
  intros r. subst r.
  destruct (read_descriptor E yaml_file) as [d|e] eqn:Hd.
  2:{ unfold load_target, bind, lift. simpl. rewrite Hd. simpl.
      repeat split; try done; try lia.
      intros file c Hin. by apply elem_of_nil in Hin. }
  destruct (decide (d_type d ∈ VALID_TARGET_TYPES E)) as [Hty|Hty].
  2:{ rewrite (load_target_unknown E yaml_file d) by done. simpl.
      repeat split; try done; try lia.
      - intros o [= <-]. by left.
      - intros file c [Heq|Hin%elem_of_nil]%elem_of_cons; done. }
  destruct (falsy (heap s) config) eqn:Hf.
  - destruct (load_target_fresh E yaml_file d config update verbose s)
      as (c & Hc & Hsub & ->); [done..|]. simpl.
    rewrite length_app. simpl. repeat split; try done; try lia.
    + intros r0 d0 Hr0 _. by apply lookup_app_l_Some.
    + intros o [= <-]. right. by eexists.
    + intros file c' Hin. by apply elem_of_nil in Hin.
  - destruct (falsy_false _ _ Hf) as (r0 & d0 & -> & Hr & Hne).
    destruct (load_target_in_place E yaml_file d r0 d0 update verbose s)
      as (c & Hc & Hsub & ->); [done..|]. simpl.
    rewrite length_insert. repeat split; try done; try lia.
    + intros r1 d1 Hr1 Hneq. rewrite list_lookup_insert_ne; [done|].
      intros ->. by apply Hneq.
    + intros o [= <-]. right. by eexists.
    + intros file c' Hin. by apply elem_of_nil in Hin.
Qed.

(** ** More on the target loop *)

(** Targets that were not selected cost nothing: the loop over all the
    registered pairs is the loop over the selected ones, in state, outcome
    and events. *)
Theorem unselected_targets_are_skipped (E : Env)
    (update dry_run verbose stop_on_error : bool)
    (target_names : gset string) (config : gmap string loc)
    (items : list (string * initializer)) (s : state) :
  target_loop E update dry_run verbose stop_on_error target_names config
    items s =
  target_loop E update dry_run verbose stop_on_error target_names config
    (filter (λ p, p.1 ∈ target_names) items) s.
Proof.
  revert s. induction items as [|[n i] items IH]; intros s; [done|].
  destruct (decide (n ∈ target_names)) as [Hin|Hin].
  - rewrite filter_cons_True by done. cbn [target_loop].
    apply bind_ext_run. intros [|] _; [apply IH|done].
  - rewrite filter_cons_False by done. rewrite <- IH.
    cbn [target_loop]. rewrite bind_run. unfold process_target.
    rewrite (bool_decide_eq_false_2 _ Hin). cbn.
    by destruct (target_loop _ _ _ _ _ _ _ _ _).
Qed.

(** An exception raised while a selected target is initialised (its
    descriptor cannot be read or fails the schema) is not caught: the loop
    ends with it right after the call of the initializer, in a dry run or
    not, with [stop_on_error] or without, and the targets after it are
    not reached. *)
Theorem initializer_error_aborts (E : Env)
    (update dry_run verbose stop_on_error : bool)
    (target_names : gset string) (config : gmap string loc)
    (name yaml_file : string) (e : exn)
    (post : list (string * initializer)) (s : state) :
  name ∈ target_names →
  read_descriptor E yaml_file = Raise e →
  target_loop E update dry_run verbose stop_on_error target_names config
    ((name, InitYaml yaml_file) :: post) s =
  Res (Raise e) s
      ((if verbose then [EvLog EchoInfo (MsgCleaning (upper name))] else []) ++
       [EvInit name (config !! name) update verbose]).
Proof.
  intros Hin Hd. cbn [target_loop]. rewrite bind_run.
  unfold process_target. rewrite (bool_decide_eq_true_2 _ Hin). cbn [negb].
  rewrite bind_run, log_message_run. cbn [out fin evs].
  rewrite bind_run. cbn [out fin evs emit]. rewrite bind_run.
  cbn [call_initializer]. unfold load_target. rewrite bind_run.
  unfold lift. cbn [out fin evs]. rewrite Hd. cbn.
  by destruct verbose.
Qed.

Lemma initializer_error_aborts_witness :
  let E' := Sample.env (λ _, Raise (Exn "IOError" "permission denied"))
              Sample.describe_ok Sample.invoke_ok None in
  ("a" ∈ ({["a"; "b"]} : gset string) ∧
   read_descriptor E' "/builtins/a.yaml" =
     Raise (Exn "IOError" "permission denied")) ∧
  target_loop E' false false true false {["a"; "b"]} ∅
    [("a", InitYaml "/builtins/a.yaml"); ("b", InitYaml "/builtins/b.yaml")]
    Sample.empty_state =
  Res (Raise (Exn "IOError" "permission denied")) Sample.empty_state
      ([EvLog EchoInfo (MsgCleaning (upper "a"))] ++
       [EvInit "a" ((∅ : gmap string loc) !! "a") false true]).
Proof.
  intros E'.
  assert ("a" ∈ ({["a"; "b"]} : gset string)) as Ha
    by (apply elem_of_union_l; by apply elem_of_singleton).
  split; [by split|].
  exact (initializer_error_aborts E' false false true false {["a"; "b"]} ∅
           "a" "/builtins/a.yaml" _
           [("b", InitYaml "/builtins/b.yaml")] Sample.empty_state Ha eq_refl).
Defined.


Lemma step_inits (E : Env) update dry_run verbose stop_on_error
    (target_names : gset string) (config : gmap string loc) name i o l :
  step_shape E update dry_run verbose stop_on_error target_names config
    name i o l →
  name ∈ target_names →
  EvInit name (config !! name) update verbose ∈ l.
Proof.
  assert (∀ pre, opening update verbose config name pre →
            EvInit name (config !! name) update verbose ∈ pre) as Hopen.
  { intros pre (noise & _ & ->). apply elem_of_app. right. by left. }
  destruct 1; intros Hin; [done|..];
    repeat (apply elem_of_app; left); by apply Hopen.
Qed.

Lemma loop_passes_non_targets (E : Env) update dry_run verbose stop_on_error
    (target_names : gset string) (config : gmap string loc)
    pre B ib post o l :
  loop_shape E update dry_run verbose stop_on_error target_names config
    (pre ++ (B, ib) :: post) o l →
  (∀ n j, (n, j) ∈ pre → n ∈ target_names →
          initializer_ok E j = true ∧ yields_target E j = false) →
  B ∈ target_names →
  EvInit B (config !! B) update verbose ∈ l.
Proof.
  revert o l. induction pre as [|[n j] pre IH]; intros o l Hloop Hpre HB.
  - simpl in Hloop. inversion Hloop as [|? ? ? ? ? Hstep|? ? ? ? ? ? Hstep];
      subst.
    + by eapply step_inits.
    + apply elem_of_app. left. by eapply step_inits.
  - simpl in Hloop.
    inversion Hloop as [|? ? ? ? ? Hstep Ho|? ? ? ? ? ? Hstep Hrest]; subst.
    + exfalso. inversion Hstep; subst; try done;
        (destruct (Hpre n j) as [Hok Hy]; [by left|done|congruence]).
    + apply elem_of_app. right. eapply IH; [done| |done].
      intros n' j' Hn'. apply Hpre. by right.
Qed.

(** A target whose initializer returns something that is not a [Target]
    (a YAML descriptor of unknown type gives [None]) is reported and
    passed over, and that never ends the loop, also under
    [stop_on_error]: the next selected target is initialised. *)
Theorem type_error_does_not_stop (E : Env)
    (update dry_run verbose stop_on_error : bool)
    (target_names : gset string) (config : gmap string loc)
    (pre : list (string * initializer)) (B : string) (ib : initializer)
    (post : list (string * initializer)) (s : state) :
  (∀ n j, (n, j) ∈ pre → n ∈ target_names →
          initializer_ok E j = true ∧ yields_target E j = false) →
  B ∈ target_names →
  EvInit B (config !! B) update verbose ∈
    evs (target_loop E update dry_run verbose stop_on_error target_names
           config (pre ++ (B, ib) :: post) s).
Proof.
  intros Hpre HB.
  destruct (target_loop_shape E update dry_run verbose stop_on_error
              target_names config (pre ++ (B, ib) :: post) s) as [Hloop _].
  by eapply loop_passes_non_targets.
Qed.

Lemma type_error_does_not_stop_witness :
  let names : gset string := {["bad"; "a"]} in
  (∀ n j, (n, j) ∈ [("bad", InitYaml "/broken/bad.yaml")] → n ∈ names →
          initializer_ok Sample.plain j = true ∧
          yields_target Sample.plain j = false) ∧
  "a" ∈ names ∧
  EvInit "a" ((∅ : gmap string loc) !! "a") false true ∈
    evs (target_loop Sample.plain false false true true names ∅
           ([("bad", InitYaml "/broken/bad.yaml")] ++
            ("a", InitYaml "/builtins/a.yaml") :: []) Sample.empty_state).
Proof.
  intros names.
  assert (∀ n j, (n, j) ∈ [("bad", InitYaml "/broken/bad.yaml")] →
            n ∈ names →
            initializer_ok Sample.plain j = true ∧
            yields_target Sample.plain j = false) as Hpre.
  { intros n j [[= -> ->]|Hin%elem_of_nil]%elem_of_cons _; [|done].
    by vm_compute. }
  assert ("a" ∈ names) as Ha
    by (apply elem_of_union_r; by apply elem_of_singleton).
  split; [exact Hpre|]. split; [exact Ha|].
  exact (type_error_does_not_stop Sample.plain false false true true names ∅
           [("bad", InitYaml "/broken/bad.yaml")] "a"
           (InitYaml "/builtins/a.yaml") [] Sample.empty_state Hpre Ha).
Defined.




Lemma bind_ext_clean {A B} (P : event → bool) (m : M A) (f g : A → M B)
    (s : state) :
  Forall (λ ev, P ev = false) (evs (bind m g s)) →
  (∀ a, out (m s) = Ret a →
        Forall (λ ev, P ev = false) (evs (m s)) →
        Forall (λ ev, P ev = false) (evs (g a (fin (m s)))) →
        f a (fin (m s)) = g a (fin (m s))) →
  bind m f s = bind m g s.
Proof.
  intros H Hfg. rewrite !bind_run in *.
  destruct (out (m s)) as [a|e]; [|done]. cbn in H.
  apply Forall_app in H as [H1 H2]. by rewrite Hfg.
Qed.

Lemma bind_clean_first {A B} (P : event → bool) (m : M A) (g : A → M B)
    (s : state) :
  Forall (λ ev, P ev = false) (evs (bind m g s)) →
  Forall (λ ev, P ev = false) (evs (m s)).
Proof.
  rewrite bind_run. destruct (out (m s)) as [a|e]; cbn; [|done].
  by intros [? _]%Forall_app.
Qed.

Lemma process_target_stop_irrelevant (E : Env) update dry_run verbose
    (target_names : gset string) (config : gmap string loc) name i s :
  Forall (λ ev, failed_invoke ev = false)
    (evs (process_target E update dry_run verbose false target_names config
            name i s)) →
  process_target E update dry_run verbose true target_names config name i s =
  process_target E update dry_run verbose false target_names config name i s.
Proof.
  unfold process_target.
  destruct (negb (bool_decide (name ∈ target_names))); [done|]. intros H.
  eapply bind_ext_clean; [exact H|]. intros _ _ _ H1.
  eapply bind_ext_clean; [exact H1|]. intros _ _ _ H2.
  eapply bind_ext_clean; [exact H2|]. intros target _ _ H3.
  destruct (as_Target target) as [t|]; [|done].
  apply bind_clean_first in H3. rewrite !bind_run.
  destruct dry_run; [done|].
  match goal with
  | |- context [out (bind ?m ?f ?s')] =>
      assert (bind m f s' =
              bind m (λ r, match r with
                           | Some ex =>
                               error (MsgCouldNotCleanup name ex);;
                               (if false then ret Break else ret Next)
                           | None => ret Next
                           end) s') as Heq
  end.
  { eapply bind_ext_clean; [exact H3|]. intros r Hr Hm _.
    destruct r as [ex|]; [exfalso|done].
    unfold invoke in Hr, Hm. rewrite !bind_run in Hr, Hm. cbn in Hr, Hm.
    injection Hr as Hr. rewrite Hr in Hm.
    apply Forall_cons in Hm as [Hm _]. discriminate Hm. }
  by rewrite Heq.
Qed.

(** [stop_on_error] matters only when a call fails: a loop in which no
    target call raises goes exactly the same way with the option set. *)
Theorem stop_on_error_idle_without_failure (E : Env)
    (update dry_run verbose : bool) (target_names : gset string)
    (config : gmap string loc) (items : list (string * initializer))
    (s : state) :
  Forall (λ ev, failed_invoke ev = false)
    (evs (target_loop E update dry_run verbose false target_names config
            items s)) →
  target_loop E update dry_run verbose true target_names config items s =
  target_loop E update dry_run verbose false target_names config items s.
Proof.
  revert s. induction items as [|[n i] items IH]; intros s H; [done|].
  cbn [target_loop] in *.
  pose proof (bind_clean_first _ _ _ _ H) as Hpt.
  rewrite bind_run in H. rewrite !bind_run.
  rewrite (process_target_stop_irrelevant _ _ _ _ _ _ _ _ _ Hpt).
  destruct (process_target E update dry_run verbose false target_names config
              n i s) as [[[|]|e] s1 l1]; cbn [out fin evs] in *; [|done..].
  rewrite IH; [done|]. by apply Forall_app in H as [_ ?].
Qed.

Lemma stop_on_error_idle_without_failure_witness :
  let items := [("a", InitYaml "/builtins/a.yaml");
                ("b", InitYaml "/builtins/b.yaml")] in
  Forall (λ ev, failed_invoke ev = false)
    (evs (target_loop Sample.plain false false true false {["a"; "b"]} ∅
            items Sample.empty_state)) ∧
  target_loop Sample.plain false false true true {["a"; "b"]} ∅ items
    Sample.empty_state =
  target_loop Sample.plain false false true false {["a"; "b"]} ∅ items
    Sample.empty_state.
Proof.
  intros items.
  assert (Forall (λ ev, failed_invoke ev = false)
            (evs (target_loop Sample.plain false false true false
                    {["a"; "b"]} ∅ items Sample.empty_state))) as Hclean.
  { vm_compute. repeat (apply Forall_cons_2; [reflexivity|]).
    apply Forall_nil_2. }
  split; [exact Hclean|].
  exact (stop_on_error_idle_without_failure Sample.plain false false true
           {["a"; "b"]} ∅ items Sample.empty_state Hclean).
Defined.

(** ** More on the run as a whole *)

Lemma process_target_dry_disk (E : Env) update verbose stop_on_error
    (target_names : gset string) (config : gmap string loc) name i s :
  disk_free (fin (process_target E update true verbose stop_on_error
                    target_names config name i s)) = disk_free s.
Proof.
  unfold process_target.
  destruct (negb (bool_decide (name ∈ target_names))); [done|].
  rewrite bind_run, log_message_run. cbn [out fin evs].
  rewrite bind_run. cbn [out fin evs emit]. rewrite bind_run.
  pose proof (call_initializer_shape E i (config !! name) update verbose s)
    as (_ & _ & HD & _). cbn zeta in HD.
  destruct (call_initializer E i (config !! name) update verbose s)
    as [[o|e] s1 l1]; cbn [out fin evs] in *; [|done].
  destruct (as_Target o) as [t|]; [|done].
  unfold describe. rewrite ?bind_run. cbn [out fin evs get_state].
  rewrite ?bind_run. cbn [out fin evs emit lift].
  destruct (target_describe E t (heap s1)) as [text|e]; cbn [out fin evs];
    [|done].
  rewrite ?bind_run. cbn [out fin evs echo_warn emit ret].
  rewrite ?bind_run. by destruct verbose.
Qed.

Lemma target_loop_dry_disk (E : Env) update verbose stop_on_error
    (target_names : gset string) (config : gmap string loc) items s :
  disk_free (fin (target_loop E update true verbose stop_on_error
                    target_names config items s)) = disk_free s.
Proof.
  revert s. induction items as [|[n i] items IH]; intros s; [done|].
  cbn [target_loop]. rewrite bind_run.
  pose proof (process_target_dry_disk E update verbose stop_on_error
                target_names config n i s) as HD.
  destruct (process_target E update true verbose stop_on_error target_names
              config n i s) as [[[|]|e] s1 l1]; cbn [out fin evs] in *;
    [|done..].
  by rewrite IH.
Qed.

Lemma register_paths_state (E : Env) (paths : list string) (s : state) :
  fin (for_each paths (register_yaml_targets E) s) =
    State (foldl bind_yaml (TARGETS s) (concat (map (yaml_files E) paths)))
          (heap s) (disk_free s).
Proof.
  revert s. induction paths as [|p paths IH]; intros s; cbn [for_each].
  - by destruct s.
  - rewrite bind_run, register_all_run. cbn [out fin evs].
    rewrite IH. cbn. by rewrite foldl_app.
Qed.

(** Where a run leaves the registry and the disk. *)
Lemma cli_state (E : Env) update dry_run quiet list_targets stop_on_error
    (config : option string) (targets_path targets : list string)
    (s : state) :
  let r := cli E update dry_run quiet list_targets stop_on_error config
             targets_path targets s in
  (∃ paths,
     TARGETS (fin r) =
       foldl bind_yaml (TARGETS s) (concat (map (yaml_files E) paths)) ∧
     (paths = [] ∨
      ∃ cfg s1 l1, get_options E config s = Res (Ret cfg) s1 l1 ∧
                   out (_config_targets_path cfg s1) = Ret paths)) ∧
  (dry_run = true ∨ list_targets = true → disk_free (fin r) = disk_free s).
Proof.
  intros r. assert (r = cli E update dry_run quiet list_targets
    stop_on_error config targets_path targets s) as Hr by done.
  clearbody r. unfold cli in Hr. rewrite bind_run in Hr.
  cbn [out fin evs iter_targets bind get_state ret] in Hr.
  unfold dict_of in Hr. rewrite list_to_map_to_list in Hr.
  rewrite bind_run, log_message_run in Hr. cbn [out fin evs] in Hr.
  rewrite bind_run in Hr.
  destruct (get_options_run E config s) as (_ & HT1 & HD1).
  destruct (get_options E config s) as [[cfg|e] s1 l1] eqn:Hopt;
    cbn [out fin evs] in *.
  2:{ subst r. cbn. split; [|done]. exists []. split; [done|by left]. }
  rewrite bind_run in Hr.
  destruct (config_targets_path_run cfg s1) as [paths Hp].
  rewrite Hp in Hr. cbn [out fin evs] in Hr.
  rewrite bind_run in Hr.
  pose proof (register_paths_state E paths s1) as Hs2.
  destruct (register_paths_run E paths s1) as (Ho2 & _ & _).
  destruct (for_each paths (register_yaml_targets E) s1) as [o2 s2 l2];
    cbn [out fin evs] in *. subst o2 s2.
  rewrite bind_run in Hr.
  assert (∃ paths',
     foldl bind_yaml (TARGETS s1) (concat (map (yaml_files E) paths)) =
       foldl bind_yaml (TARGETS s) (concat (map (yaml_files E) paths')) ∧
     (paths' = [] ∨
      ∃ cfg' s1' l1', Res (Ret cfg) s1 l1 = Res (Ret cfg') s1' l1' ∧
                      out (_config_targets_path cfg' s1') = Ret paths'))
    as Hreg.
  { exists paths. rewrite HT1. split; [done|]. right.
    exists cfg, s1, l1. split; [done|]. by rewrite Hp. }
  destruct targets_path as [|tp tps]; cbn [out fin evs ret] in Hr.
  2:{ subst r. cbn. by split. }
  destruct list_targets.
  { rewrite list_targets_run in Hr. subst r. cbn. split; [done|].
    intros _. done. }
  rewrite bind_run in Hr.
  cbn [out fin evs get_disk_usage bind get_state emit ret] in Hr.
  rewrite bind_run in Hr.
  match type of Hr with
  | context [target_loop E update dry_run (negb quiet) stop_on_error ?names
               cfg ?items ?s2] =>
      destruct (target_loop_shape E update dry_run (negb quiet)
                  stop_on_error names cfg items s2) as [_ HT3];
      pose proof (target_loop_dry_disk E update (negb quiet) stop_on_error
                    names cfg items s2) as HD3;
      destruct (target_loop E update dry_run (negb quiet) stop_on_error
                  names cfg items s2) as [[f|e] s3 l3] eqn:Hloop
  end; cbn [out fin evs TARGETS disk_free] in *.
  2:{ subst r. cbn. rewrite HT3. split; [done|].
      intros [->|?]; [|done]. rewrite Hloop in HD3. cbn in HD3. congruence. }
  rewrite bind_run in Hr.
  cbn [out fin evs get_disk_usage bind get_state emit ret] in Hr.
  assert (∀ z,
    fin ((if negb dry_run
          then log_message (negb quiet) MsgCleanupComplete;;
               log_message (negb quiet) (MsgFreed (disk_free s3 - z))
          else ret ()) s3) = s3 ∧
    out ((if negb dry_run
          then log_message (negb quiet) MsgCleanupComplete;;
               log_message (negb quiet) (MsgFreed (disk_free s3 - z))
          else ret ()) s3) = Ret tt) as Hreport.
  { intros z. destruct dry_run; cbn [negb]; [done|].
    rewrite bind_run, !log_message_run. by cbn. }
  destruct (Hreport (disk_free s1)) as [Hfin _].
  subst r. cbn [out fin evs]. rewrite Hfin, HT3. split; [done|].
  intros [->|?]; [|done]. rewrite Hloop in HD3. cbn in HD3. congruence.
Qed.









(** [cli] only ever adds to the registry.  Every name registered on entry
    is still registered when the run ends; a binding that is new or
    changed is the deferred load of a YAML file; and when the
    configuration has no 'cleanmymac' section the registry ends as it
    began. *)
Theorem cli_only_adds_yaml_targets (E : Env)
    (update dry_run quiet list_targets stop_on_error : bool)
    (config : option string) (targets_path targets : list string)
    (s : state) :
  let r := cli E update dry_run quiet list_targets stop_on_error config
             targets_path targets s in
  (∀ n, n ∈ dom (TARGETS s) → n ∈ dom (TARGETS (fin r))) ∧
  (∀ n i, TARGETS (fin r) !! n = Some i →
          TARGETS s !! n = Some i ∨ ∃ yaml_file, i = InitYaml yaml_file) ∧
  (∀ cfg s1 l1, get_options E config s = Res (Ret cfg) s1 l1 →
                cfg !! "cleanmymac" = None →
                TARGETS (fin r) = TARGETS s).
Proof.
  intros r.
  destruct (cli_state E update dry_run quiet list_targets stop_on_error
              config targets_path targets s) as [(paths & HT & Hpaths) _].
  fold r in HT. rewrite HT.
  set (l := concat (map (yaml_files E) paths)).
  split; [|split].
  - intros n Hn. apply elem_of_dom.
    destruct (bind_yaml_lookup l (TARGETS s) n) as [Hin Hout].
    destruct (decide (n ∈ l.*1)) as [Hl|Hl].
    + destruct (Hin Hl) as (f & _ & ->). by eexists.
    + rewrite (Hout Hl). by apply elem_of_dom.
  - intros n i Hi.
    destruct (bind_yaml_lookup l (TARGETS s) n) as [Hin Hout].
    destruct (decide (n ∈ l.*1)) as [Hl|Hl].
    + destruct (Hin Hl) as (f & _ & Hf). right. exists f. congruence.
    + left. by rewrite <- (Hout Hl).
  - intros cfg s1 l1 Hopt Hnone.
    destruct Hpaths as [->|(cfg' & s1' & l1' & Hopt' & Hp)]; [done|].
    rewrite Hopt in Hopt'. injection Hopt' as <- <- <-.
    unfold _config_targets_path in Hp. rewrite bind_run in Hp.
    cbn [out fin evs get_state] in Hp. rewrite Hnone in Hp.
    cbn in Hp. injection Hp as <-. done.
Qed.

Lemma alloc_config_spec (cfg : list (string * pydict)) (s : state) :
  ∃ m, alloc_config cfg s =
         Res (Ret m) (State (TARGETS s) (heap s ++ cfg.*2) (disk_free s)) [] ∧
       ∀ k r0, m !! k = Some r0 →
               ∃ d, (k, d) ∈ cfg ∧ (heap s ++ cfg.*2)%list !! r0 = Some d.
Proof.
  revert s. induction cfg as [|[k d] cfg IH]; intros s; cbn [alloc_config].
  - exists ∅. split; [|done]. cbn. rewrite app_nil_r. by destruct s.
  - destruct (IH (State (TARGETS s) (heap s ++ [d]) (disk_free s)))
      as (m & Hm & Href). cbn [TARGETS heap disk_free] in *.
    exists (<[k := length (heap s)]> m). split.
    + rewrite bind_run. cbn [out fin evs alloc]. rewrite bind_run, Hm.
      cbn. by rewrite <- app_assoc.
    + intros k' r0. destruct (decide (k' = k)) as [->|Hne].
      * rewrite lookup_insert_eq. intros [= <-]. exists d.
        split; [by left|]. cbn. by rewrite list_lookup_middle.
      * rewrite lookup_insert_ne by done. intros Hk.
        destruct (Href k' r0 Hk) as (d' & Hin & Hl). exists d'.
        split; [by right|]. cbn. by rewrite <- app_assoc in Hl.
Qed.

(** [get_options] never touches the registry or the disk.  It warns
    exactly when the file is missing and then goes on with the empty
    dict; an exception of the parser or of the schema is passed on; an
    absent path and an empty one both mean the default file.  When it
    returns, the dicts that were there are as they were, the sub-dicts of
    the configuration come after them, and every key of the result refers
    to a sub-dict the configuration has under that key. *)
Theorem get_options_cases (E : Env) (path : option string) (s : state) :
  let p := abspath E
             (match path with
              | Some p => if bool_decide (p = "") then default_config_path E
                          else p
              | None => default_config_path E
              end) in
  let r := get_options E path s in
  TARGETS (fin r) = TARGETS s ∧ disk_free (fin r) = disk_free s ∧
  evs r = match read_config E p with
          | Some _ => []
          | None => [EvLog LogWarn MsgConfigNotFound]
          end ∧
  (path = Some "" → r = get_options E None s) ∧
  match read_config E p with
  | Some (Raise e) => out r = Raise e
  | loaded =>
      match validate_yaml_config E (match loaded with
                                    | Some (Ret raw) => raw
                                    | _ => []
                                    end) with
      | Raise e => out r = Raise e
      | Ret cfg =>
          ∃ m, out r = Ret m ∧ heap (fin r) = (heap s ++ cfg.*2)%list ∧
               ∀ k r0, m !! k = Some r0 →
                       ∃ d, (k, d) ∈ cfg ∧ heap (fin r) !! r0 = Some d
      end
  end.
Proof.
  intros p r.
  assert (path = Some "" → r = get_options E None s) as Hempty
    by (by intros ->).
  enough (TARGETS (fin r) = TARGETS s ∧ disk_free (fin r) = disk_free s ∧
          evs r = match read_config E p with
                  | Some _ => []
                  | None => [EvLog LogWarn MsgConfigNotFound]
                  end ∧
          match read_config E p with
          | Some (Raise e) => out r = Raise e
          | loaded =>
              match validate_yaml_config E (match loaded with
                                            | Some (Ret raw) => raw
                                            | _ => []
                                            end) with
              | Raise e => out r = Raise e
              | Ret cfg =>
                  ∃ m, out r = Ret m ∧
                       heap (fin r) = (heap s ++ cfg.*2)%list ∧
                       ∀ k r0, m !! k = Some r0 →
                               ∃ d, (k, d) ∈ cfg ∧
                                    heap (fin r) !! r0 = Some d
              end
          end) as (? & ? & ? & ?) by done.
  clear Hempty. subst r. unfold get_options. fold p. rewrite bind_run.
  assert (∀ raw,
    let k := (do cfg <- lift (validate_yaml_config E raw); alloc_config cfg) in
    evs (k s) = [] ∧ TARGETS (fin (k s)) = TARGETS s ∧
    disk_free (fin (k s)) = disk_free s ∧
    match validate_yaml_config E raw with
    | Raise e => out (k s) = Raise e
    | Ret cfg =>
        ∃ m, out (k s) = Ret m ∧ heap (fin (k s)) = (heap s ++ cfg.*2)%list ∧
             ∀ k' r0, m !! k' = Some r0 →
                      ∃ d, (k', d) ∈ cfg ∧ heap (fin (k s)) !! r0 = Some d
    end) as Hk.
  { intros raw k. subst k. rewrite bind_run. unfold lift. cbn [out fin evs].
    destruct (validate_yaml_config E raw) as [cfg|e]; [|done].
    destruct (alloc_config_spec cfg s) as (m & -> & Href). cbn.
    repeat split; try done. by exists m. }
  destruct (read_config E p) as [[raw|e]|].
  - cbn [out fin evs lift].
    destruct (Hk raw) as (He & HT & HD & Hv). cbn zeta in *.
    rewrite He. by repeat split.
  - cbn [out fin evs lift]. by repeat split.
  - rewrite bind_run. cbn [out fin evs warn emit ret].
    destruct (Hk []) as (He & HT & HD & Hv). cbn zeta in *.
    rewrite He. by repeat split.
Qed.

(** With one or more [-t] options [cli] never reaches the targets.  The
    value click hands over is a tuple; [os.path.isdir] raises on it, so
    the run ends with an exception after the start-up log lines, before
    any listing, disk measurement or target: with a TypeError when the
    configuration was read, with the configuration's own exception
    otherwise. *)
Theorem extra_path_option_never_reaches_targets (E : Env)
    (update dry_run quiet list_targets stop_on_error : bool)
    (config : option string) (targets_path targets : list string)
    (s : state) :
  targets_path ≠ [] →
  let r := cli E update dry_run quiet list_targets stop_on_error config
             targets_path targets s in
  (∃ e, out r = Raise e) ∧
  Forall (λ ev, startup_log ev = true) (evs r) ∧
  (∀ cfg s1 l1, get_options E config s = Res (Ret cfg) s1 l1 →
     out r = Raise (TypeError
                      "coercing to Unicode: need string or buffer, tuple found")).
Proof.
  intros Htp r. assert (r = cli E update dry_run quiet list_targets
    stop_on_error config targets_path targets s) as Hr by done.
  clearbody r. unfold cli in Hr. rewrite bind_run in Hr.
  cbn [out fin evs iter_targets bind get_state ret] in Hr.
  unfold dict_of in Hr. rewrite list_to_map_to_list in Hr.
  rewrite bind_run, log_message_run in Hr. cbn [out fin evs] in Hr.
  rewrite bind_run in Hr.
  assert (Forall (λ ev, startup_log ev = true)
            (if negb quiet then [EvLog EchoInfo (MsgFound (size (TARGETS s)))]
             else [])) as He0 by (destruct quiet; by repeat constructor).
  destruct (get_options_run E config s) as (He1 & _ & _).
  destruct (get_options E config s) as [[cfg|e] s1 l1]; cbn [out fin evs] in *.
  2:{ subst r. cbn. split; [by eexists|]. split; [by apply Forall_app_2|].
      intros cfg s1' l1' Heq. discriminate Heq. }
  rewrite bind_run in Hr.
  destruct (config_targets_path_run cfg s1) as [paths Hp].
  rewrite Hp in Hr. cbn [out fin evs] in Hr.
  rewrite bind_run in Hr.
  destruct (register_paths_run E paths s1) as (Ho2 & He2 & _).
  destruct (for_each paths (register_yaml_targets E) s1) as [o2 s2 l2];
    cbn [out fin evs] in *. subst o2.
  rewrite bind_run in Hr.
  destruct targets_path as [|tp tps]; [done|]. cbn [out fin evs ret] in Hr.
  subst r. cbn. split; [by eexists|]. split; [|done].
  rewrite !app_nil_r. by repeat apply Forall_app_2.
Qed.

Lemma extra_path_option_never_reaches_targets_witness :
  let r := cli Sample.plain false false false false false None ["/extra"] []
             Sample.one_target in
  ["/extra"] ≠ [] ∧
  (∃ e, out r = Raise e) ∧
  Forall (λ ev, startup_log ev = true) (evs r) ∧
  (∀ cfg s1 l1, get_options Sample.plain None Sample.one_target =
                  Res (Ret cfg) s1 l1 →
     out r = Raise (TypeError
                      "coercing to Unicode: need string or buffer, tuple found")).
Proof.
  intros r. split; [discriminate|].
  exact (extra_path_option_never_reaches_targets Sample.plain false false
           false false false None ["/extra"] [] Sample.one_target
           ltac:(discriminate)).
Defined.
